(** * Leaflet template visual for Power BI: a shallow embedding of
    [src/visual.ts] and the properties of its specification.

    The visual is one TypeScript class, [Visual], driven by the host
    (constructor, [update], [destroy]) and by the browser (animation
    frames, an interval timer, the page-visibility event, clicks on the
    layer control).  The embedding has three layers:

    - [JS]: the fragment of JavaScript value semantics the class relies on
      (truthiness, [||], strict equality with a number, property lookup
      through [Object.prototype], string conversion in template literals);
    - the tooltip code of the county overlay and of the incident layers;
    - the widget itself, as explicit state passing over a [World] that
      holds the [Visual] fields next to the browser resources they refer
      to (pending animation-frame callbacks, interval timers, the document
      listener, the layer-control DOM). *)

From stdpp Require Import base option list gmap strings pretty.
From Stdlib Require Import ZArith QArith Lia.

Local Close Scope Q_scope.
Local Open Scope string_scope.

(* ===================================================================== *)
(** * JavaScript values *)
(* ===================================================================== *)

Module JS.

(** A JS number.  Severity codes, FIPS codes and timer handles are
    integers, [Int z] with [z] the value itself ([-0] is [Int 0]: it
    prints, tests and compares as [0] wherever the visual looks at it).
    [NaN] is what [Number(..)] yields on a string that is not numeric.
    [Other text] is any remaining number, a fraction or an infinity,
    known by the text ToString gives it: it is not zero, it is no
    integer, and the visual does nothing with it but test and print
    it. *)
Inductive number : Type :=
| Int (z : Z)
| NaN
| Other (text : string).

(** Values of feature properties (GeoJSON, so JSON data), plus the
    built-in objects a property read can reach through
    [Object.prototype]; [VBuiltin m] is the value of the inherited
    member [m]. *)
Inductive Value : Type :=
| VUndefined
| VNull
| VBool (b : bool)
| VNum (n : number)
| VStr (s : string)
| VBuiltin (member : string).

#[global] Instance number_eq_dec : EqDecision number.
Proof. solve_decision. Defined.

#[global] Instance Value_eq_dec : EqDecision Value.
Proof. solve_decision. Defined.

(** ToBoolean: [undefined], [null], [false], [0], [NaN] and the empty
    string are falsy; everything else, objects included, is truthy. *)
Definition truthy (v : Value) : bool :=
  match v with
  | VUndefined | VNull => false
  | VBool b => b
  | VNum (Int z) => negb (z =? 0)%Z
  | VNum NaN => false
  | VNum (Other _) => true
  | VStr s => negb (String.eqb s EmptyString)
  | VBuiltin _ => true
  end.

(** [a || b] *)
Definition or (a b : Value) : Value := if truthy a then a else b.

(** [v == null], the loose test that holds of [null] and [undefined]
    only. *)
Definition loose_null (v : Value) : bool :=
  match v with
  | VUndefined | VNull => true
  | _ => false
  end.

(** [v === k] for a number literal [k]: no coercion, so only the number
    itself is equal to it. *)
Definition strict_eq_int (v : Value) (k : Z) : bool :=
  match v with
  | VNum (Int z) => (z =? k)%Z
  | _ => false
  end.

(** The members every ordinary object inherits from [Object.prototype]
    (ECMA-262, 20.1.3 and Annex B.2.2). *)
Definition object_prototype_members : list string :=
  [ "constructor"; "hasOwnProperty"; "isPrototypeOf";
    "propertyIsEnumerable"; "toLocaleString"; "toString"; "valueOf";
    "__proto__"; "__defineGetter__"; "__defineSetter__";
    "__lookupGetter__"; "__lookupSetter__" ].

Definition object_prototype_has (k : string) : bool :=
  bool_decide (k ∈ object_prototype_members).

(** An ordinary object: its own properties; its prototype is
    [Object.prototype]. *)
Abbreviation Object := (gmap string Value).

(** [o[k]] for a string key: own property first, then the prototype
    chain, then [undefined]. *)
Definition get (o : Object) (k : string) : Value :=
  match o !! k with
  | Some v => v
  | None => if object_prototype_has k then VBuiltin k else VUndefined
  end.

(** The integers a double holds exactly and prints digit by digit. *)
Definition MAX_SAFE_INTEGER : Z := 9007199254740991.

(** What the visual takes from the JavaScript engine without fixing it:
    how a built-in of [Object.prototype] is printed
    (implementation-defined for native functions), StringToNumber of
    ECMA-262 (7.1.4.1.1), and Number::toString (6.1.6.1.20) beyond the
    safe integers, where it rounds to the shortest digits that identify
    the double and, from 1e21 on, switches to exponent notation. *)
Class Engine : Type := {
  native_text : string -> string;
  StringToNumber : string -> number;
  large_number_text : Z -> string
}.

Section Conversions.

Context {engine : Engine}.

(** Number::toString: a safe integer prints as its decimal digits. *)
Definition number_to_string (n : number) : string :=
  match n with
  | Int z =>
      if (Z.abs z <=? MAX_SAFE_INTEGER)%Z then pretty z
      else large_number_text z
  | NaN => "NaN"
  | Other text => text
  end.

(** ToString, as applied by [`${v}`] and by a computed property key. *)
Definition to_string (v : Value) : string :=
  match v with
  | VUndefined => "undefined"
  | VNull => "null"
  | VBool true => "true"
  | VBool false => "false"
  | VNum n => number_to_string n
  | VStr s => s
  | VBuiltin m => native_text m
  end.

(** [o[v]] for a computed key. *)
Definition get_computed (o : Object) (v : Value) : Value :=
  get o (to_string v).

(** [Number(v)] *)
Definition Number (v : Value) : number :=
  match v with
  | VUndefined => NaN
  | VNull => Int 0
  | VBool true => Int 1
  | VBool false => Int 0
  | VNum n => n
  | VStr s => StringToNumber s
  | VBuiltin m => StringToNumber (native_text m)
  end.

End Conversions.

End JS.

Import JS.

(* ===================================================================== *)
(** * Features and the layers built from them *)
(* ===================================================================== *)

(** A GeoJSON feature: [properties] is an object or [null]. *)
Record Feature : Type := mkFeature {
  properties : option Object
}.

(** The argument of [setStyle]: the options it overrides. *)
Record StylePatch : Type := mkStylePatch {
  sp_weight : option Z;
  sp_color : option string
}.

(** The part of an [L.Path] the feature callbacks touch: the bound
    tooltip (content, with the [sticky] option) and the listeners added
    with [layer.on]; a listener is the style patch its closure applies. *)
Record PathLayer : Type := mkPathLayer {
  tooltip : option (string * bool);
  listeners : list (string * StylePatch)
}.

Definition fresh_path : PathLayer :=
  {| tooltip := None; listeners := [] |}.

Definition bindTooltip (content : string) (sticky : bool) (l : PathLayer) : PathLayer :=
  {| tooltip := Some (content, sticky); listeners := listeners l |}.

Definition on (type : string) (h : StylePatch) (l : PathLayer) : PathLayer :=
  {| tooltip := tooltip l; listeners := listeners l ++ [(type, h)] |}.

#[global] Instance StylePatch_eq_dec : EqDecision StylePatch.
Proof. solve_decision. Defined.

#[global] Instance PathLayer_eq_dec : EqDecision PathLayer.
Proof. solve_decision. Defined.

(** The data files bundled with the visual, [./data/fipsToCounty] (the
    table from FIPS code to county name) and [./data/nc_counties] (the
    county features).  They are not part of the sources at hand, so both
    are parameters. *)
Class Bundle : Type := {
  fipsToCounty : gmap Z string;
  counties : list Feature
}.

Section Tooltips.

Context {engine : Engine} {bundle : Bundle}.

(* ------------------------------------------------------------------- *)
(** ** County overlay: [onEachFeature] of [L.geoJSON(counties, ..)] *)

(** [(feature.properties as any)?.FIPS] *)
Definition feature_fips (f : Feature) : Value :=
  match properties f with
  | Some p => get p "FIPS"
  | None => VUndefined
  end.

(** [fipsToCounty[n]]: the table has integer codes as keys.  The key of a
    number is its text, never the name of a member of
    [Object.prototype], so only the table itself answers, and it has no
    key for NaN, a fraction or an infinity. *)
Definition fips_lookup (n : number) : option string :=
  match n with
  | Int z => fipsToCounty !! z
  | NaN | Other _ => None
  end.

(** [fipsToCounty[Number(fips)] ?? "Unknown"] *)
Definition county_name (fips : Value) : string :=
  match fips_lookup (Number fips) with
  | Some name => name
  | None => "Unknown"
  end.

Definition county_hover : StylePatch :=
  {| sp_weight := Some 3%Z; sp_color := Some "yellow" |}.

Definition county_rest : StylePatch :=
  {| sp_weight := Some 1%Z; sp_color := Some "gray" |}.

Definition countyEachFeature (feature : Feature) (layer : PathLayer) : PathLayer :=
  let fips := feature_fips feature in
  if negb (loose_null fips) then
    let name := county_name fips in
    on "mouseout" county_rest
      (on "mouseover" county_hover
         (bindTooltip (name ++ " County") true layer))
  else layer.

(* ------------------------------------------------------------------- *)
(** ** Incident layers: [workzoneEachFeature] *)

(** [(feature.properties as any) || {}] *)
Definition feature_props (f : Feature) : Object :=
  match properties f with
  | Some p => p
  | None => ∅
  end.

Definition severity_label (p : Object) : string :=
  if strict_eq_int (get p "Severity") 1 then "Low"
  else if strict_eq_int (get p "Severity") 2 then "Medium"
  else if strict_eq_int (get p "Severity") 3 then "High"
  else "Not Provided".

Definition dirMap : Object :=
  <["N" := VStr "North"]> (<["S" := VStr "South"]> (<["E" := VStr "East"]>
  (<["W" := VStr "West"]> (<["A" := VStr "All"]> (<["O" := VStr "Outer"]> ∅))))).

(** [dirMap[p.Direction] || "Not Provided"] *)
Definition direction_label (p : Object) : Value :=
  JS.or (get_computed dirMap (get p "Direction")) (VStr "Not Provided").

(** [${p.<name> || "<placeholder>"}] *)
Definition text_slot (p : Object) (name placeholder : string) : string :=
  to_string (JS.or (get p name) (VStr placeholder)).

(** The line break inside the template literal: a newline and the
    indentation of the continuation lines. *)
Definition br : string :=
  "<br/>" ++ String (Ascii.ascii_of_nat 10) "                     ".

Definition tooltip_template
    (type sev condition city county road direction reason until_ : string) : string :=
  "<strong>Type:</strong> " ++ type ++ br ++
  "<strong>Impact Level:</strong> " ++ sev ++ br ++
  "<strong>Condition:</strong> " ++ condition ++ br ++
  "<strong>Place:</strong> " ++ city ++ ", " ++ county ++ " County" ++ br ++
  "<strong>Road:</strong> " ++ road ++ br ++
  "<strong>Direction:</strong> " ++ direction ++ br ++
  "<strong>Reason:</strong> " ++ reason ++ br ++
  "<strong>Until:</strong> " ++ until_.

Definition workzone_label (p : Object) : string :=
  tooltip_template
    (text_slot p "IncidentType" "Not Provided")
    (severity_label p)
    (text_slot p "Condition" "Not Provided")
    (text_slot p "City" "Unknown City")
    (text_slot p "CountyName" "Unknown")
    (text_slot p "Road" "Not Provided")
    (to_string (direction_label p))
    (text_slot p "Reason" "Not Provided")
    (text_slot p "EndDateET" "Not Provided").

Definition workzone_hover : StylePatch :=
  {| sp_weight := None; sp_color := Some "yellow" |}.

Definition workzone_rest : StylePatch :=
  {| sp_weight := None; sp_color := Some "blue" |}.

Definition workzoneEachFeature (feature : Feature) (layer : PathLayer) : PathLayer :=
  let p := feature_props feature in
  on "mouseout" workzone_rest
    (on "mouseover" workzone_hover
       (bindTooltip (workzone_label p) true layer)).

End Tooltips.

(* ===================================================================== *)
(** * Layers, the map and the layer control *)
(* ===================================================================== *)

(** Objects created with [L.tileLayer], [L.geoJSON] and
    [LEsri.featureLayer] are told apart by the order of their creation. *)
Definition ObjId := nat.

Record TileLayer : Type := mkTileLayer {
  tile_id : ObjId;
  tile_url : string;
  tile_attribution : string;
  tile_subdomains : option string;
  tile_maxZoom : Z
}.

Record PathOptions : Type := mkPathOptions {
  po_pane : option string;
  po_interactive : option bool;
  po_fill : option bool;
  po_fillOpacity : option Q;
  po_fillColor : option string;
  po_weight : Z;
  po_color : string;
  po_opacity : option Q;
  po_dashArray : option string
}.

(** [L.geoJSON(data, options)]: one path per feature, each passed through
    [onEachFeature]. *)
Record GeoJSONLayer : Type := mkGeoJSONLayer {
  gj_id : ObjId;
  gj_pane : string;
  gj_style : PathOptions;
  gj_paths : list PathLayer
}.

(** [LEsri.featureLayer(options)]: the layer keeps its query ([url],
    [where]); its features arrive later from the service and go through
    [onEachFeature] then. *)
Record EsriFeatureLayer : Type := mkEsriFeatureLayer {
  fl_id : ObjId;
  fl_url : string;
  fl_where : string;
  fl_pane : string;
  fl_style : PathOptions
}.

(** Listeners the visual adds to the map; the closure of
    [map.on("overlayadd overlayremove baselayerchange", ..)] asks for a
    frame in which the collapsible headers are refreshed. *)
Inductive MapHandler : Type :=
| OnLayerChange.

Record LMap : Type := mkLMap {
  map_container : string;
  map_center : Q * Q;
  map_zoom : Z;
  map_maxZoom : Z;
  map_minZoom : Z;
  map_panes : list (string * string);      (* pane name, z-index *)
  map_layers : list ObjId;                 (* layers added to the map *)
  map_handlers : list (string * MapHandler);
  map_removed : bool
}.

(** Listeners the visual adds to a group header. *)
Inductive HeaderHandler : Type :=
| ClickToggle       (* preventDefault, stopPropagation, toggle *)
| KeydownToggle.    (* on Enter or Space: preventDefault, toggle *)

(** One rendered group of the grouped layer control:
    [div.leaflet-control-layers-group] with its header
    [label.leaflet-control-layers-group-label], the name span inside the
    header, and one child element per member layer. *)
Record GroupEl : Type := mkGroupEl {
  grp_name : string;                       (* textContent of the name span *)
  hdr_gliWired : bool;                     (* headerLabel._gliWired *)
  hdr_carets : nat;                        (* span.gli-caret elements in the header *)
  hdr_cursor : string;                     (* headerLabel.style.cursor *)
  hdr_is_collapsed : bool;                 (* class is-collapsed *)
  hdr_listeners : list (string * HeaderHandler);
  hdr_click_blocked : bool;                (* L.DomEvent.disableClickPropagation *)
  hdr_scroll_blocked : bool;               (* L.DomEvent.disableScrollPropagation *)
  grp_items : list string                  (* style.display of the other children *)
}.

Record LayerControl : Type := mkLayerControl {
  ctl_baseLayers : list (string * ObjId);
  ctl_overlays : list (string * list (string * ObjId));
  ctl_collapsed : bool;
  ctl_exclusiveGroups : list string;
  ctl_groupCheckboxes : bool;
  ctl_container : option (list GroupEl)    (* set by addTo(map) *)
}.

#[global] Instance HeaderHandler_eq_dec : EqDecision HeaderHandler.
Proof. solve_decision. Defined.

#[global] Instance GroupEl_eq_dec : EqDecision GroupEl.
Proof. solve_decision. Defined.

(* ===================================================================== *)
(** * The visual and the browser around it *)
(* ===================================================================== *)

Record Visual : Type := mkVisual {
  target : string;
  map : LMap;
  inited : bool;
  darkMap : TileLayer;
  lightMap : TileLayer;
  countiesLayer : option GeoJSONLayer;
  layerControl : option LayerControl;
  truckClosureLayer : option EsriFeatureLayer;
  constructionLayer : option EsriFeatureLayer;
  nightConstructionLayer : option EsriFeatureLayer;
  maintenanceLayer : option EsriFeatureLayer;
  nightMaintenanceLayer : option EsriFeatureLayer;
  emergencyLayer : option EsriFeatureLayer;
  obstructionLayer : option EsriFeatureLayer;
  weatherLayer : option EsriFeatureLayer;
  specialLayer : option EsriFeatureLayer;
  otherLayer : option EsriFeatureLayer;
  autoRefreshTimer : option Z
}.

Inductive Visibility : Type :=
| Visible
| Hidden.

(** Closures handed to [requestAnimationFrame]. *)
Inductive Callback : Type :=
| CbInitLayersAndUI            (* () => this.initLayersAndUI() *)
| CbInvalidateSize             (* () => this.map.invalidateSize() *)
| CbRefreshCollapsibles        (* () => this.refreshLayerControlCollapsibles() *)
| CbWireCollapsibles.          (* the frame body of refreshLayerControlCollapsibles *)

(** [console.log] arguments. *)
Inductive ConsoleArg : Type :=
| CText (s : string)
| CRoles (roles : list string)
| CValues (values : list Value).

(** Calls that leave the visual: what it asks of the browser, of the map
    and of the feature service, in the order of the calls. *)
Inductive Effect : Type :=
| FxRequestFrame (cb : Callback)
| FxInvalidateSize
| FxRefresh (layer : EsriFeatureLayer)
| FxConsole (args : list ConsoleArg).

#[global] Instance Callback_eq_dec : EqDecision Callback.
Proof. solve_decision. Defined.

#[global] Instance Visibility_eq_dec : EqDecision Visibility.
Proof. solve_decision. Defined.

Record World : Type := mkWorld {
  this : Visual;
  dom_children : list string;       (* ids of the host element's children *)
  frames : list Callback;           (* pending requestAnimationFrame callbacks *)
  intervals : list (Z * Z);         (* running setInterval timers: handle, period *)
  next_handle : positive;           (* timer handles are integers above zero *)
  next_object : ObjId;
  visibility_listener : bool;       (* onVisibilityRefresh listens to visibilitychange *)
  visibilityState : Visibility;     (* document.visibilityState *)
  log : list Effect
}.

(** ** Field updates *)

Definition with_this (f : Visual -> Visual) (w : World) : World :=
  mkWorld (f (this w)) (dom_children w) (frames w) (intervals w) (next_handle w)
          (next_object w) (visibility_listener w) (visibilityState w) (log w).

Definition with_frames (fs : list Callback) (w : World) : World :=
  mkWorld (this w) (dom_children w) fs (intervals w) (next_handle w)
          (next_object w) (visibility_listener w) (visibilityState w) (log w).

Definition with_intervals (ts : list (Z * Z)) (w : World) : World :=
  mkWorld (this w) (dom_children w) (frames w) ts (next_handle w)
          (next_object w) (visibility_listener w) (visibilityState w) (log w).

Definition with_next_handle (h : positive) (w : World) : World :=
  mkWorld (this w) (dom_children w) (frames w) (intervals w) h
          (next_object w) (visibility_listener w) (visibilityState w) (log w).

Definition with_next_object (n : ObjId) (w : World) : World :=
  mkWorld (this w) (dom_children w) (frames w) (intervals w) (next_handle w)
          n (visibility_listener w) (visibilityState w) (log w).

Definition with_visibility_listener (b : bool) (w : World) : World :=
  mkWorld (this w) (dom_children w) (frames w) (intervals w) (next_handle w)
          (next_object w) b (visibilityState w) (log w).

Definition with_visibilityState (v : Visibility) (w : World) : World :=
  mkWorld (this w) (dom_children w) (frames w) (intervals w) (next_handle w)
          (next_object w) (visibility_listener w) v (log w).

Definition emit (e : Effect) (w : World) : World :=
  mkWorld (this w) (dom_children w) (frames w) (intervals w) (next_handle w)
          (next_object w) (visibility_listener w) (visibilityState w) (log w ++ [e]).

Definition set_inited (b : bool) (v : Visual) : Visual :=
  mkVisual (target v) (map v) b (darkMap v) (lightMap v) (countiesLayer v)
    (layerControl v) (truckClosureLayer v) (constructionLayer v)
    (nightConstructionLayer v) (maintenanceLayer v) (nightMaintenanceLayer v)
    (emergencyLayer v) (obstructionLayer v) (weatherLayer v) (specialLayer v)
    (otherLayer v) (autoRefreshTimer v).

Definition set_map (m : LMap) (v : Visual) : Visual :=
  mkVisual (target v) m (inited v) (darkMap v) (lightMap v) (countiesLayer v)
    (layerControl v) (truckClosureLayer v) (constructionLayer v)
    (nightConstructionLayer v) (maintenanceLayer v) (nightMaintenanceLayer v)
    (emergencyLayer v) (obstructionLayer v) (weatherLayer v) (specialLayer v)
    (otherLayer v) (autoRefreshTimer v).

Definition set_countiesLayer (c : GeoJSONLayer) (v : Visual) : Visual :=
  mkVisual (target v) (map v) (inited v) (darkMap v) (lightMap v) (Some c)
    (layerControl v) (truckClosureLayer v) (constructionLayer v)
    (nightConstructionLayer v) (maintenanceLayer v) (nightMaintenanceLayer v)
    (emergencyLayer v) (obstructionLayer v) (weatherLayer v) (specialLayer v)
    (otherLayer v) (autoRefreshTimer v).

Definition set_layerControl (c : LayerControl) (v : Visual) : Visual :=
  mkVisual (target v) (map v) (inited v) (darkMap v) (lightMap v) (countiesLayer v)
    (Some c) (truckClosureLayer v) (constructionLayer v)
    (nightConstructionLayer v) (maintenanceLayer v) (nightMaintenanceLayer v)
    (emergencyLayer v) (obstructionLayer v) (weatherLayer v) (specialLayer v)
    (otherLayer v) (autoRefreshTimer v).

Definition set_autoRefreshTimer (t : option Z) (v : Visual) : Visual :=
  mkVisual (target v) (map v) (inited v) (darkMap v) (lightMap v) (countiesLayer v)
    (layerControl v) (truckClosureLayer v) (constructionLayer v)
    (nightConstructionLayer v) (maintenanceLayer v) (nightMaintenanceLayer v)
    (emergencyLayer v) (obstructionLayer v) (weatherLayer v) (specialLayer v)
    (otherLayer v) t.

(** The ten assignments [this.truckClosureLayer = ..] to
    [this.otherLayer = ..], in the order of the source. *)
Definition set_workzones
    (tc co nc ma nm em ob we sp ot : EsriFeatureLayer) (v : Visual) : Visual :=
  mkVisual (target v) (map v) (inited v) (darkMap v) (lightMap v) (countiesLayer v)
    (layerControl v) (Some tc) (Some co) (Some nc) (Some ma) (Some nm)
    (Some em) (Some ob) (Some we) (Some sp) (Some ot) (autoRefreshTimer v).

(* ===================================================================== *)
(** * Host data passed to [update] *)
(* ===================================================================== *)

Record Column : Type := mkColumn {
  col_roles : list string;
  col_displayName : string;
  col_values : list Value
}.

Record Categorical : Type := mkCategorical {
  categories : option (list Column);
  values : option (list Column)
}.

Record DataView : Type := mkDataView {
  categorical : option Categorical
}.

Record VisualUpdateOptions : Type := mkOptions {
  dataViews : option (list DataView)
}.

(* ===================================================================== *)
(** * String helpers of the header lookup *)
(* ===================================================================== *)

Module Text.

Definition is_space (c : Ascii.ascii) : bool :=
  let n := Ascii.nat_of_ascii c in
  (n =? 32)%nat || ((9 <=? n)%nat && (n <=? 13)%nat).

Fixpoint trim_start (s : string) : string :=
  match s with
  | String c rest => if is_space c then trim_start rest else s
  | EmptyString => EmptyString
  end.

Fixpoint rev_acc (s acc : string) : string :=
  match s with
  | String c rest => rev_acc rest (String c acc)
  | EmptyString => acc
  end.

(** [s.trim()], on the ASCII white space (tab, line feed, vertical tab,
    form feed, carriage return, space).  JavaScript strips the Unicode
    white space as well; the group names of the visual are ASCII, see
    [ascii_only]. *)
Definition trim (s : string) : string :=
  rev_acc (trim_start (rev_acc (trim_start s) EmptyString)) EmptyString.

Definition lower_char (c : Ascii.ascii) : Ascii.ascii :=
  let n := Ascii.nat_of_ascii c in
  if (65 <=? n)%nat && (n <=? 90)%nat then Ascii.ascii_of_nat (n + 32) else c.

(** [s.toLowerCase()], on the ASCII letters; JavaScript lowers the
    Unicode letters as well. *)
Fixpoint toLowerCase (s : string) : string :=
  match s with
  | String c rest => String (lower_char c) (toLowerCase rest)
  | EmptyString => EmptyString
  end.

(** The text both sides of the header comparison are reduced to. *)
Definition normalize (s : string) : string := toLowerCase (trim s).

End Text.

(* ===================================================================== *)
(** * Collapsible group headers *)
(* ===================================================================== *)

(** [setCollapsed(collapsed)]: every member element is hidden or shown and
    the header class follows. *)
Definition setCollapsed (collapsed : bool) (g : GroupEl) : GroupEl :=
  mkGroupEl (grp_name g) (hdr_gliWired g) (hdr_carets g) (hdr_cursor g)
    collapsed (hdr_listeners g) (hdr_click_blocked g) (hdr_scroll_blocked g)
    (List.map (fun _ => if collapsed then "none" else EmptyString) (grp_items g)).

(** [items[0]?.style.display === "none"] *)
Definition first_item_hidden (g : GroupEl) : bool :=
  match grp_items g with
  | d :: _ => String.eqb d "none"
  | [] => false
  end.

Definition toggle (g : GroupEl) : GroupEl :=
  setCollapsed (negb (first_item_hidden g)) g.

(** The body of [makeGroupedLayerCollapsible] from the [_gliWired] test
    on, for the group whose header was found. *)
Definition wire_header (g : GroupEl) : GroupEl :=
  if hdr_gliWired g then g
  else
    setCollapsed true
      (mkGroupEl (grp_name g) true
         (if (hdr_carets g =? 0)%nat then 1%nat else hdr_carets g)
         "pointer" (hdr_is_collapsed g)
         (hdr_listeners g ++ [("click", ClickToggle); ("keydown", KeydownToggle)])
         true true (grp_items g)).

(** [Array.from(querySelectorAll(..)).find(..)]: the first group whose
    name matches; only that one is touched. *)
Fixpoint wire_first (groupName : string) (groups : list GroupEl) : list GroupEl :=
  match groups with
  | [] => []
  | g :: rest =>
      if String.eqb (Text.normalize (grp_name g)) (Text.normalize groupName)
      then wire_header g :: rest
      else g :: wire_first groupName rest
  end.

Definition makeGroupedLayerCollapsible (control : LayerControl) (groupName : string)
  : LayerControl :=
  match ctl_container control with
  | None => control
  | Some groups =>
      mkLayerControl (ctl_baseLayers control) (ctl_overlays control)
        (ctl_collapsed control) (ctl_exclusiveGroups control)
        (ctl_groupCheckboxes control) (Some (wire_first groupName groups))
  end.

(** What one listener does when its event reaches the header. *)
Definition run_header_handler (key : string) (h : HeaderHandler) (g : GroupEl) : GroupEl :=
  match h with
  | ClickToggle => toggle g
  | KeydownToggle =>
      if String.eqb key "Enter" || String.eqb key " " then toggle g else g
  end.

(** An event of type [type] on the header: its listeners of that type
    run in the order they were added. *)
Definition dispatch_header (type key : string) (g : GroupEl) : GroupEl :=
  fold_left
    (fun g '(t, h) => if String.eqb t type then run_header_handler key h g else g)
    (hdr_listeners g) g.

Definition click_header (g : GroupEl) : GroupEl :=
  dispatch_header "click" EmptyString g.

Definition keydown_header (key : string) (g : GroupEl) : GroupEl :=
  dispatch_header "keydown" key g.

(** The group found for a name, for stating properties of the lookup. *)
Fixpoint find_group (groupName : string) (groups : list GroupEl) : option GroupEl :=
  match groups with
  | [] => None
  | g :: rest =>
      if String.eqb (Text.normalize (grp_name g)) (Text.normalize groupName)
      then Some g
      else find_group groupName rest
  end.

Definition control_group (control : LayerControl) (groupName : string) : option GroupEl :=
  match ctl_container control with
  | Some groups => find_group groupName groups
  | None => None
  end.

(* ===================================================================== *)
(** * What can happen to the widget *)
(* ===================================================================== *)

(** Calls of the host and events of the browser, once the visual is
    constructed. *)
Inductive Event : Type :=
| EvUpdate (options : VisualUpdateOptions)     (* host: update(options) *)
| EvDestroy                                    (* host: destroy() *)
| EvFrame                                      (* an animation frame *)
| EvInterval (id : Z)                          (* the timer [id] fires *)
| EvVisibilityChange (v : Visibility)          (* visibilitychange, new state [v] *)
| EvMapEvent (type : string)                   (* the map fires [type] *)
| EvHeaderClick (group : nat)                  (* click on a group header *)
| EvHeaderKeydown (group : nat) (key : string).

(* ===================================================================== *)
(** * The widget *)
(* ===================================================================== *)

Section Widget.

Context {engine : Engine} {bundle : Bundle}.

(* ------------------------------------------------------------------- *)
(** ** Browser services *)

Definition requestAnimationFrame (cb : Callback) (w : World) : World :=
  emit (FxRequestFrame cb) (with_frames (frames w ++ [cb]) w).

(** [window.setInterval(cb, ms)]: the handle returned is a fresh integer
    above zero. *)
Definition setInterval (ms : Z) (w : World) : Z * World :=
  let h := next_handle w in
  (Z.pos h,
   with_next_handle (Pos.succ h) (with_intervals (intervals w ++ [(Z.pos h, ms)]) w)).

Definition clearInterval (id : Z) (w : World) : World :=
  with_intervals (List.filter (fun t => negb (fst t =? id)%Z) (intervals w)) w.

(** Truthiness of [number | null]. *)
Definition timer_truthy (t : option Z) : bool :=
  match t with
  | Some id => negb (id =? 0)%Z
  | None => false
  end.

(* ------------------------------------------------------------------- *)
(** ** Construction *)

Fixpoint remove_first (id : string) (children : list string) : list string :=
  match children with
  | [] => []
  | c :: rest => if String.eqb c id then rest else c :: remove_first id rest
  end.

Definition createMapContainer (children : list string) : list string :=
  remove_first "mapid" children ++ ["mapid"].

(** The double quote inside the attribution markup. *)
Definition dq : string := String (Ascii.ascii_of_nat 34) EmptyString.

Definition dark_tiles (id : ObjId) : TileLayer :=
  {| tile_id := id;
     tile_url := "https://{s}.basemaps.cartocdn.com/dark_all/{z}/{x}/{y}{r}.png";
     tile_attribution :=
       "&copy; <a href=" ++ dq ++ "https://carto.com/" ++ dq ++ ">CARTO</a>";
     tile_subdomains := Some "abcd";
     tile_maxZoom := 20 |}.

Definition light_tiles (id : ObjId) : TileLayer :=
  {| tile_id := id;
     tile_url := "https://tile.openstreetmap.org/{z}/{x}/{y}.png";
     tile_attribution :=
       "&copy; <a href=" ++ dq ++ "https://www.openstreetmap.org/copyright" ++ dq ++
       ">OpenStreetMap</a> contributors";
     tile_subdomains := None;
     tile_maxZoom := 19 |}.

(** [initMap]: the map, its two panes, the dark basemap added to the
    map and the light basemap only created. *)
Definition initMap (first_object : ObjId) : LMap * TileLayer * TileLayer :=
  let dark := dark_tiles first_object in
  let light := light_tiles (S first_object) in
  ({| map_container := "mapid";
      map_center := (35.54%Q, (-79.24)%Q);
      map_zoom := 7; map_maxZoom := 20; map_minZoom := 3;
      map_panes := [("counties", "400"); ("workzones", "450")];
      map_layers := [tile_id dark];
      map_handlers := [];
      map_removed := false |}, dark, light).

(** [new Visual(options)] on a page whose timer handles start at
    [first_handle] and whose host element has the children [children]. *)
Definition constructor (first_handle : positive) (children : list string) : World :=
  let '(m, dark, light) := initMap 0 in
  {| this :=
       {| target := "element"; map := m; inited := false;
          darkMap := dark; lightMap := light;
          countiesLayer := None; layerControl := None;
          truckClosureLayer := None; constructionLayer := None;
          nightConstructionLayer := None; maintenanceLayer := None;
          nightMaintenanceLayer := None; emergencyLayer := None;
          obstructionLayer := None; weatherLayer := None;
          specialLayer := None; otherLayer := None;
          autoRefreshTimer := None |};
     dom_children := createMapContainer children;
     frames := [];
     intervals := [];
     next_handle := first_handle;
     next_object := 2;
     visibility_listener := false;
     visibilityState := Visible;
     log := [] |}.

(* ------------------------------------------------------------------- *)
(** ** Refresh helpers *)

Definition incident_fields (v : Visual) : list (option EsriFeatureLayer) :=
  [ truckClosureLayer v; constructionLayer v; nightConstructionLayer v;
    maintenanceLayer v; nightMaintenanceLayer v; emergencyLayer v;
    obstructionLayer v; weatherLayer v; specialLayer v; otherLayer v ].

(** [for (const l of layers) l?.refresh?.()] *)
Definition refreshAllLayers (w : World) : World :=
  fold_left
    (fun w l => match l with Some layer => emit (FxRefresh layer) w | None => w end)
    (incident_fields (this w)) w.

Definition onVisibilityRefresh (w : World) : World :=
  if decide (visibilityState w = Visible) then refreshAllLayers w else w.

Definition startAutoRefresh (ms : Z) (w : World) : World :=
  let w :=
    match autoRefreshTimer (this w) with
    | Some id => if timer_truthy (Some id) then clearInterval id w else w
    | None => w
    end in
  if (0 <? ms)%Z then
    let '(id, w) := setInterval ms w in
    with_this (set_autoRefreshTimer (Some id)) w
  else w.

(* ------------------------------------------------------------------- *)
(** ** Deferred initialisation *)

Definition counties_style : PathOptions :=
  {| po_pane := None; po_interactive := None;
     po_fill := Some true; po_fillOpacity := Some 0.0%Q; po_fillColor := Some "#000";
     po_weight := 1; po_color := "gray"; po_opacity := None;
     po_dashArray := Some "3" |}.

Definition workzoneLinePolyStyle : PathOptions :=
  {| po_pane := Some "workzones"; po_interactive := Some true;
     po_fill := None; po_fillOpacity := None; po_fillColor := None;
     po_weight := 8; po_color := "blue"; po_opacity := Some 0.5%Q;
     po_dashArray := None |}.

Definition tims : string :=
  "https://services.arcgis.com/NuWFvHYDMVmmxMeM/ArcGIS/rest/services/NCDOT_TIMSIncidentsByIncidentType/FeatureServer/1".

(** [wz(where)]; the layer's [onEachFeature] is [workzoneEachFeature]. *)
Definition wz (where_ : string) (id : ObjId) : EsriFeatureLayer :=
  {| fl_id := id; fl_url := tims; fl_where := where_;
     fl_pane := "workzones"; fl_style := workzoneLinePolyStyle |}.

(** [layer.addTo(map)] *)
Definition addTo (id : ObjId) (m : LMap) : LMap :=
  mkLMap (map_container m) (map_center m) (map_zoom m) (map_maxZoom m)
    (map_minZoom m) (map_panes m) (map_layers m ++ [id]) (map_handlers m)
    (map_removed m).

(** [map.on(types, h)] with [types] already split at the spaces. *)
Definition map_on (types : list string) (h : MapHandler) (m : LMap) : LMap :=
  mkLMap (map_container m) (map_center m) (map_zoom m) (map_maxZoom m)
    (map_minZoom m) (map_panes m) (map_layers m)
    (map_handlers m ++ List.map (fun t => (t, h)) types) (map_removed m).

(** The group elements the control renders when it is added to the map:
    one per overlay group, the header not yet wired, every member
    shown. *)
Definition render_groups (overlays : list (string * list (string * ObjId)))
  : list GroupEl :=
  List.map
    (fun '(name, members) =>
       mkGroupEl name false 0 EmptyString false [] false false
         (List.map (fun _ => EmptyString) members))
    overlays.

(** [L.control.groupedLayers(baseMaps, groupedOverlays, options)] then
    [addTo(map)]. *)
Definition groupedLayers (baseMaps : list (string * ObjId))
    (groupedOverlays : list (string * list (string * ObjId))) : LayerControl :=
  {| ctl_baseLayers := baseMaps;
     ctl_overlays := groupedOverlays;
     ctl_collapsed := false;
     ctl_exclusiveGroups := ["Boundaries"];
     ctl_groupCheckboxes := false;
     ctl_container := Some (render_groups groupedOverlays) |}.

(** [initLayersAndUI], as it runs on a live map.  (On a map that
    [destroy] has removed Leaflet raises an error in the first [addTo];
    see [map_remove].) *)
Definition initLayersAndUI (w : World) : World :=
  let v := this w in
  let n := next_object w in
  (* county overlay *)
  let countiesL :=
    {| gj_id := n; gj_pane := "counties"; gj_style := counties_style;
       gj_paths :=
         List.map
           (fun f => countyEachFeature f fresh_path)
           counties |} in
  let v := set_map (addTo (gj_id countiesL) (map v)) (set_countiesLayer countiesL v) in
  (* work zones *)
  let tc := wz "IncidentType = 'Truck Closure'" (n + 1) in
  let co := wz "IncidentType = 'Construction'" (n + 2) in
  let nc := wz "IncidentType = 'Night Time Construction'" (n + 3) in
  let ma := wz "IncidentType = 'Maintenance'" (n + 4) in
  let nm := wz "IncidentType = 'Night Time Maintenance'" (n + 5) in
  let em := wz "IncidentType = 'Emergency Road Work'" (n + 6) in
  let ob := wz "IncidentType = 'Road Obstruction'" (n + 7) in
  let we := wz "IncidentType = 'Weather Event'" (n + 8) in
  let sp := wz "IncidentType = 'Special Event'" (n + 9) in
  let ot := wz "IncidentType = 'Other'" (n + 10) in
  let v := set_workzones tc co nc ma nm em ob we sp ot v in
  let v := set_map (addTo (fl_id co) (map v)) v in
  (* layer control *)
  let baseMaps :=
    [ ("Dark Basemap", tile_id (darkMap v)); ("Light Basemap", tile_id (lightMap v)) ] in
  let groupedOverlays :=
    [ ("Boundaries", [ ("Counties", gj_id countiesL) ]);
      ("Work Zones",
       [ ("Truck Closure", fl_id tc); ("Construction", fl_id co);
         ("Night Construction", fl_id nc); ("Maintenance", fl_id ma);
         ("Night Time Maintenance", fl_id nm); ("Emergency Road Work", fl_id em);
         ("Road Obstruction", fl_id ob); ("Weather Event", fl_id we);
         ("Special Event", fl_id sp); ("Other", fl_id ot) ]) ] in
  let v := set_layerControl (groupedLayers baseMaps groupedOverlays) v in
  let v :=
    set_map (map_on ["overlayadd"; "overlayremove"; "baselayerchange"] OnLayerChange (map v)) v in
  let w := with_next_object (n + 11) (with_this (fun _ => v) w) in
  (* auto refresh, after the layers exist *)
  let w := startAutoRefresh (6 * 60 * 60 * 1000) w in
  with_visibility_listener true w.

(* ------------------------------------------------------------------- *)
(** ** Collapsible refresh *)

Definition wire_collapsibles (w : World) : World :=
  match layerControl (this w) with
  | Some c =>
      let c := makeGroupedLayerCollapsible c "Boundaries" in
      let c := makeGroupedLayerCollapsible c "Work Zones" in
      with_this (set_layerControl c) w
  | None => w
  end.

Definition refreshLayerControlCollapsibles (w : World) : World :=
  match layerControl (this w) with
  | None => w
  | Some _ => requestAnimationFrame CbWireCollapsibles w
  end.

(* ------------------------------------------------------------------- *)
(** ** Host lifecycle *)

Definition log_column (label : string) (c : Column) (w : World) : World :=
  emit (FxConsole [CText "Values:"; CValues (col_values c)])
    (emit (FxConsole [CText "DisplayName:"; CText (col_displayName c)])
       (emit (FxConsole [CText label; CRoles (col_roles c)]) w)).

Definition log_columns (label : string) (cols : option (list Column)) (w : World) : World :=
  match cols with
  | Some cs => fold_left (fun w c => log_column label c w) cs w
  | None => w
  end.

(** [options.dataViews && options.dataViews[0]] *)
Definition first_dataView (options : VisualUpdateOptions) : option DataView :=
  match dataViews options with
  | Some (dv :: _) => Some dv
  | _ => None
  end.

Definition update (options : VisualUpdateOptions) (w : World) : World :=
  let w :=
    if negb (inited (this w)) then
      requestAnimationFrame CbInitLayersAndUI (with_this (set_inited true) w)
    else w in
  let w := requestAnimationFrame CbInvalidateSize w in
  match first_dataView options with
  | Some {| categorical := Some cat |} =>
      log_columns "Measure role:" (values cat)
        (log_columns "Category role:" (categories cat) w)
  | _ => emit (FxConsole [CText "No data"]) w
  end.

(** [map.remove()]: the layers and the panes leave the map.  The host
    calls nothing after [destroy]; what Leaflet does when a removed map is
    used again (a frame still pending at that time) is not modelled, the
    calls go through as on a live map. *)
Definition map_remove (m : LMap) : LMap :=
  mkLMap (map_container m) (map_center m) (map_zoom m) (map_maxZoom m)
    (map_minZoom m) [] [] (map_handlers m) true.

Definition destroy (w : World) : World :=
  let w :=
    match autoRefreshTimer (this w) with
    | Some id => if timer_truthy (Some id) then clearInterval id w else w
    | None => w
    end in
  let w := with_visibility_listener false w in
  with_this (fun v => set_map (map_remove (map v)) v) w.

(* ------------------------------------------------------------------- *)
(** ** The event loop *)

Definition invalidateSize (w : World) : World := emit FxInvalidateSize w.

Definition run_callback (w : World) (cb : Callback) : World :=
  match cb with
  | CbInitLayersAndUI => initLayersAndUI w
  | CbInvalidateSize => invalidateSize w
  | CbRefreshCollapsibles => refreshLayerControlCollapsibles w
  | CbWireCollapsibles => wire_collapsibles w
  end.

(** One animation frame: the callbacks pending when the frame starts run
    in the order of their registration; what they register waits for
    the next frame. *)
Definition animation_frame (w : World) : World :=
  fold_left run_callback (frames w) (with_frames [] w).

Definition run_map_handler (w : World) (h : MapHandler) : World :=
  match h with
  | OnLayerChange => requestAnimationFrame CbRefreshCollapsibles w
  end.

Definition fire (type : string) (w : World) : World :=
  fold_left
    (fun w '(t, h) => if String.eqb t type then run_map_handler w h else w)
    (map_handlers (map (this w))) w.

Definition on_header (f : GroupEl -> GroupEl) (i : nat) (w : World) : World :=
  match layerControl (this w) with
  | Some c =>
      match ctl_container c with
      | Some groups =>
          with_this
            (set_layerControl
               (mkLayerControl (ctl_baseLayers c) (ctl_overlays c) (ctl_collapsed c)
                  (ctl_exclusiveGroups c) (ctl_groupCheckboxes c)
                  (Some (alter f i groups))))
            w
      | None => w
      end
  | None => w
  end.

Definition step (w : World) (e : Event) : World :=
  match e with
  | EvUpdate options => update options w
  | EvDestroy => destroy w
  | EvFrame => animation_frame w
  | EvInterval id =>
      if existsb (fun t => (fst t =? id)%Z) (intervals w)
      then refreshAllLayers w else w
  | EvVisibilityChange v =>
      let w := with_visibilityState v w in
      if visibility_listener w then onVisibilityRefresh w else w
  | EvMapEvent type => fire type w
  | EvHeaderClick i => on_header click_header i w
  | EvHeaderKeydown i key => on_header (keydown_header key) i w
  end.

Definition run (w : World) (trace : list Event) : World :=
  fold_left step trace w.

End Widget.

(* ===================================================================== *)
(** * Vocabulary of the properties *)
(* ===================================================================== *)

(** The ten incident types of the feature service, in the order the
    layers are created. *)
Definition incident_types : list string :=
  [ "Truck Closure"; "Construction"; "Night Time Construction"; "Maintenance";
    "Night Time Maintenance"; "Emergency Road Work"; "Road Obstruction";
    "Weather Event"; "Special Event"; "Other" ].

(** The query predicate the specification asks for. *)
Definition incident_predicate (type : string) : string :=
  "IncidentType = '" ++ type ++ "'".





Definition is_update (e : Event) : bool :=
  match e with EvUpdate _ => true | _ => false end.

Definition is_frame (e : Event) : bool :=
  match e with EvFrame => true | _ => false end.

Definition is_init_request (e : Effect) : bool :=
  match e with FxRequestFrame CbInitLayersAndUI => true | _ => false end.

(** How often the deferred initialisation was asked for. *)
Definition init_requests (l : list Effect) : nat :=
  length (List.filter is_init_request l).

(** The incident layers that exist. *)
Definition incident_layers (v : Visual) : list EsriFeatureLayer :=
  omap id (incident_fields v).

Definition on_map (v : Visual) (id : ObjId) : bool :=
  bool_decide (id ∈ map_layers (map v)).

(** The state the constructor leaves: the map with at most its basemap,
    no overlay layer, no layer control, no refresh timer and no
    visibility listener. *)
Record Constructed (w : World) : Prop := mkConstructed {
  cs_counties : countiesLayer (this w) = None;
  cs_incidents : incident_layers (this w) = [];
  cs_control : layerControl (this w) = None;
  cs_timer : autoRefreshTimer (this w) = None;
  cs_intervals : intervals w = [];
  cs_listener : visibility_listener w = false;
  cs_handlers : map_handlers (map (this w)) = [];
  cs_layers : Forall (fun id => id = tile_id (darkMap (this w))) (map_layers (map (this w)))
}.

(** The re-queries one run of [refreshAllLayers] sends once the layers
    exist. *)
Definition requery_all (v : Visual) : list Effect :=
  List.map FxRefresh (incident_layers v).

(** The base layers of the control that are not on the map. *)
Definition unrendered_basemaps (v : Visual) (c : LayerControl) : list (string * ObjId) :=
  List.filter (fun b => negb (on_map v (snd b))) (ctl_baseLayers c).

(** The overlays registered with the control under a group. *)
Definition control_members (c : LayerControl) (group : string) : list (string * ObjId) :=
  match List.find (fun g => String.eqb (fst g) group) (ctl_overlays c) with
  | Some g => snd g
  | None => []
  end.

(** [w'] differs from [w] at most by callbacks added to the frame queue
    and by calls added to the log, none of them a request for the
    deferred initialisation. *)
Record benign (w w' : World) : Prop := mkBenign {
  bn_this : this w' = this w;
  bn_intervals : intervals w' = intervals w;
  bn_next_handle : next_handle w' = next_handle w;
  bn_next_object : next_object w' = next_object w;
  bn_listener : visibility_listener w' = visibility_listener w;
  bn_visibility : visibilityState w' = visibilityState w;
  bn_frames : exists fs, frames w' = (frames w ++ fs)%list /\ CbInitLayersAndUI ∉ fs;
  bn_log : exists l, log w' = (log w ++ l)%list /\ init_requests l = 0%nat
}.

(** The first statements of [update], before the host data is looked at. *)
Definition update_head (w : World) : World :=
  requestAnimationFrame CbInvalidateSize
    (if negb (inited (this w))
     then requestAnimationFrame CbInitLayersAndUI (with_this (set_inited true) w)
     else w).

(** Requests for the deferred initialisation still waiting for a frame. *)
Definition pending_inits (w : World) : nat :=
  length (List.filter (fun cb => bool_decide (cb = CbInitLayersAndUI)) (frames w)).

(** The request was made once if the visual is marked initialised and
    never otherwise. *)
Definition requests_match (w : World) : Prop :=
  init_requests (log w) = (if inited (this w) then 1 else 0)%nat.

(** Every running timer is the one the visual remembers, and its handle
    is above zero: so there is at most one. *)
Definition timers_ok (w : World) : Prop :=
  intervals w = [] \/
  exists (h : positive) (ms : Z),
    intervals w = [(Z.pos h, ms)] /\ autoRefreshTimer (this w) = Some (Z.pos h).

(** The rendering right after the layers are initialised: the only
    incident layer on the map is the Construction one, the other nine are
    off the map, all ten are members of the Work Zones group of the
    control, the control lists the two basemaps, and [hidden] of these are
    not on the map. *)
Definition initial_rendering (hidden : nat) (w : World) : Prop :=
  let v := this w in
  exists c : LayerControl,
    layerControl v = Some c /\
    List.map fl_where (List.filter (fun l => on_map v (fl_id l)) (incident_layers v))
      = [incident_predicate "Construction"] /\
    List.map fl_where (List.filter (fun l => negb (on_map v (fl_id l))) (incident_layers v))
      = List.map incident_predicate
          [ "Truck Closure"; "Night Time Construction"; "Maintenance";
            "Night Time Maintenance"; "Emergency Road Work"; "Road Obstruction";
            "Weather Event"; "Special Event"; "Other" ] /\
    List.map snd (control_members c "Work Zones") = List.map fl_id (incident_layers v) /\
    List.map snd (ctl_baseLayers c) = [tile_id (darkMap v); tile_id (lightMap v)] /\
    length (unrendered_basemaps v c) = hidden.

(** Once the visibility listener is registered the ten incident layers
    exist, each with the predicate of its type. *)
Definition layers_known (w : World) : Prop :=
  visibility_listener w = true ->
  List.map fl_where (incident_layers (this w)) = List.map incident_predicate incident_types.

(** What a visibility change to [v] sends to the feature service. *)
Definition visibility_requeries (v : Visual) (s : Visibility) : list Effect :=
  match s with
  | Visible => requery_all v
  | Hidden => []
  end.

(** Concrete surroundings for examples: an engine that prints built-ins
    as their name, a string conversion that knows no number, one county
    in the table and two county features. *)
Module Sample.

Definition engine : Engine :=
  {| native_text := fun m => m; StringToNumber := fun _ => NaN;
     large_number_text := fun z => pretty z |}.

Definition alamance : Feature :=
  {| properties := Some {[ "FIPS" := VNum (Int 1) ]} |}.

Definition elsewhere : Feature :=
  {| properties := Some {[ "FIPS" := VNum (Int 2) ]} |}.

Definition nameless : Feature := {| properties := None |}.

Definition bundle : Bundle :=
  {| fipsToCounty := {[ 1%Z := "Alamance" ]};
     counties := [alamance; elsewhere; nameless] |}.

Definition no_data : VisualUpdateOptions := {| dataViews := None |}.

(** A control as the deferred initialisation renders it, and its Work
    Zones group. *)
Definition control : LayerControl :=
  groupedLayers
    [ ("Dark Basemap", 0%nat); ("Light Basemap", 1%nat) ]
    [ ("Boundaries", [ ("Counties", 2%nat) ]);
      ("Work Zones", [ ("Truck Closure", 3%nat); ("Construction", 4%nat) ]) ].

Definition group : GroupEl :=
  mkGroupEl "Work Zones" false 0 EmptyString false [] false false
    [EmptyString; EmptyString].

End Sample.

(* ===================================================================== *)
(** * Vocabulary of the further properties *)
(* ===================================================================== *)

(** How often the id [id] occurs among the children of the host element,
    and the children with another id. *)
Definition count_id (id : string) (children : list string) : nat :=
  length (List.filter (String.eqb id) children).

Definition other_children (id : string) (children : list string) : list string :=
  List.filter (fun c => negb (String.eqb id c)) children.

(** The [console.log] calls of a log, in order. *)
Definition console_output (l : list Effect) : list (list ConsoleArg) :=
  omap (fun e => match e with FxConsole args => Some args | _ => None end) l.

(** The three lines [update] prints for one column. *)
Definition column_lines (label : string) (c : Column) : list (list ConsoleArg) :=
  [ [CText label; CRoles (col_roles c)];
    [CText "DisplayName:"; CText (col_displayName c)];
    [CText "Values:"; CValues (col_values c)] ].

Definition columns_of (cols : option (list Column)) : list Column :=
  match cols with
  | Some cs => cs
  | None => []
  end.

(** Size invalidations: asked for by [update], performed by a frame. *)
Definition is_invalidation (e : Effect) : bool :=
  match e with FxInvalidateSize => true | _ => false end.

Definition invalidations (l : list Effect) : nat :=
  length (List.filter is_invalidation l).

Definition pending_invalidations (w : World) : nat :=
  length (List.filter (fun cb => bool_decide (cb = CbInvalidateSize)) (frames w)).

Definition updates (trace : list Event) : nat :=
  length (List.filter is_update trace).

(** [w'] has performed and has pending as many size invalidations as
    [w]. *)
Definition same_tally (w w' : World) : Prop :=
  invalidations (log w') = invalidations (log w) /\
  pending_invalidations w' = pending_invalidations w.

(** All ten incident layers exist, each with the predicate of its type. *)
Definition layers_complete (w : World) : Prop :=
  List.map fl_where (incident_layers (this w)) = List.map incident_predicate incident_types.

(** Either no incident layer exists yet, and then no timer runs, or all
    ten exist. *)
Definition refresh_ready (w : World) : Prop :=
  (incident_layers (this w) = [] /\ intervals w = []) \/ layers_complete w.

(** Events that reach the visual only through its timer and its
    visibility listener. *)
Definition is_passive (e : Event) : bool :=
  match e with
  | EvVisibilityChange _ | EvInterval _ => true
  | _ => false
  end.

(** What the user can do to a group header. *)
Inductive HeaderEvent : Type :=
| HeClick
| HeKeydown (key : string).

Definition header_event (g : GroupEl) (e : HeaderEvent) : GroupEl :=
  match e with
  | HeClick => click_header g
  | HeKeydown key => keydown_header key g
  end.

(** The events the listeners of the visual answer with a toggle. *)
Definition toggles (e : HeaderEvent) : bool :=
  match e with
  | HeClick => true
  | HeKeydown key => String.eqb key "Enter" || String.eqb key " "
  end.

Definition toggle_count (events : list HeaderEvent) : nat :=
  length (List.filter toggles events).

(** A header carries either no listener of the visual and no mark, or the
    mark and one click and one keydown listener. *)
Definition wired_once (g : GroupEl) : Prop :=
  (hdr_gliWired g = false /\ hdr_listeners g = []) \/
  (hdr_gliWired g = true /\
   hdr_listeners g = [("click", ClickToggle); ("keydown", KeydownToggle)]).

(** The rendered groups of the layer control, none before it exists. *)
Definition control_groups (w : World) : list GroupEl :=
  match layerControl (this w) with
  | Some c =>
      match ctl_container c with
      | Some groups => groups
      | None => []
      end
  | None => []
  end.

(** The map event types the visual listens to. *)
Definition layer_event_types : list string :=
  ["overlayadd"; "overlayremove"; "baselayerchange"].

(** A text of ASCII characters only.  On these texts [Text.trim] and
    [Text.toLowerCase] are [trim] and [toLowerCase] of JavaScript, which
    beyond ASCII also strip the Unicode white space and lower the
    Unicode letters. *)
Definition is_ascii (c : Ascii.ascii) : bool :=
  (Ascii.nat_of_ascii c <? 128)%nat.

Fixpoint ascii_only (s : string) : bool :=
  match s with
  | String c rest => is_ascii c && ascii_only rest
  | EmptyString => true
  end.

(** The names of the rendered groups of a control. *)
Definition rendered_names (c : LayerControl) : list string :=
  match ctl_container c with
  | Some groups => List.map grp_name groups
  | None => []
  end.

(** A string of white space only. *)
Fixpoint blank (s : string) : bool :=
  match s with
  | String c rest => Text.is_space c && blank rest
  | EmptyString => true
  end.

Definition direction_codes : list string := ["N"; "S"; "E"; "W"; "A"; "O"].

(** [path.setStyle(patch)]: the options named in the patch replace those
    of the path. *)
Definition setStyle (patch : StylePatch) (style : PathOptions) : PathOptions :=
  mkPathOptions (po_pane style) (po_interactive style) (po_fill style)
    (po_fillOpacity style) (po_fillColor style)
    (match sp_weight patch with Some w => w | None => po_weight style end)
    (match sp_color patch with Some c => c | None => po_color style end)
    (po_opacity style) (po_dashArray style).

(** A pointer event of type [type] on a path with the style [style]: the
    listeners of that type run in the order they were added. *)
Definition path_fire (layer : PathLayer) (style : PathOptions) (type : string)
  : PathOptions :=
  fold_left
    (fun st '(t, patch) => if String.eqb t type then setStyle patch st else st)
    (listeners layer) style.

Definition path_events (layer : PathLayer) (style : PathOptions) (types : list string)
  : PathOptions :=
  fold_left (path_fire layer) types style.

(* ===================================================================== *)
(** * Properties of the tooltip code *)
(* ===================================================================== *)

Section TooltipFacts.

Context {engine : Engine} {bundle : Bundle}.

Lemma get_own (p : Object) (k : string) (v : Value) :
  p !! k = Some v -> get p k = v.
Proof. intros H. unfold get. by rewrite H. Qed.

Lemma get_absent (p : Object) (k : string) :
  p !! k = None -> object_prototype_has k = false -> get p k = VUndefined.
Proof. intros H Hk. unfold get. by rewrite H, Hk. Qed.





(** The severity mapping is total: the numbers 1, 2 and 3 have their
    labels, every other value has the fallback. *)
Lemma severity_label_total (p : Object) :
  let sev := get p "Severity" in
  (sev = VNum (Int 1) -> severity_label p = "Low") /\
  (sev = VNum (Int 2) -> severity_label p = "Medium") /\
  (sev = VNum (Int 3) -> severity_label p = "High") /\
  (sev <> VNum (Int 1) -> sev <> VNum (Int 2) -> sev <> VNum (Int 3) ->
   severity_label p = "Not Provided").
Proof.
  unfold severity_label, strict_eq_int. cbv zeta.
  repeat split; try (intros ->; reflexivity).
  destruct (get p "Severity") as [| |b|[z| |t]|s|m]; try reflexivity.
  intros H1 H2 H3.
  destruct (Z.eqb_spec z 1) as [->|]; [congruence|].
  destruct (Z.eqb_spec z 2) as [->|]; [congruence|].
  destruct (Z.eqb_spec z 3) as [->|]; [congruence|reflexivity].
Qed.

(** The six direction codes have their labels. *)
Lemma direction_label_codes (p : Object) (code name : string) :
  (code, name) ∈ [("N", "North"); ("S", "South"); ("E", "East");
                  ("W", "West"); ("A", "All"); ("O", "Outer")] ->
  get p "Direction" = VStr code ->
  direction_label p = VStr name.
Proof.
  intros Hin Hp. unfold direction_label, get_computed. rewrite Hp. simpl.
  set_unfold. destruct Hin as [H|[H|[H|[H|[H|[H|[]]]]]]];
    inversion H; subst; vm_compute; reflexivity.
Qed.

(** A key that is neither a direction code nor a member of
    [Object.prototype] falls back. *)
Lemma direction_label_fallback (p : Object) :
  let key := to_string (get p "Direction") in
  dirMap !! key = None ->
  object_prototype_has key = false ->
  direction_label p = VStr "Not Provided".
Proof.
  intros key Hown Hproto. unfold direction_label, get_computed.
  fold key. by rewrite (get_absent _ _ Hown Hproto).
Qed.

(** An absent direction falls back. *)
Lemma direction_label_absent (p : Object) :
  get p "Direction" = VUndefined ->
  direction_label p = VStr "Not Provided".
Proof.
  intros H. apply direction_label_fallback; rewrite H; vm_compute; reflexivity.
Qed.

(** Every member name of [Object.prototype] given as direction yields the
    inherited member, not the fallback. *)
Lemma direction_label_inherited (m : string) :
  m ∈ object_prototype_members ->
  direction_label {[ "Direction" := VStr m ]} = VBuiltin m.
Proof.
  unfold object_prototype_members. intros Hm. set_unfold.
  repeat (destruct Hm as [-> | Hm]; [vm_compute; reflexivity|]).
  destruct Hm.
Qed.

(* ------------------------------------------------------------------- *)
(** ** Free-text slots *)










(* ------------------------------------------------------------------- *)
(** ** The claims on tooltips *)

(** C7 (the code departs from it).  The claim: Severity maps 1, 2, 3 to
    Low, Medium, High and anything else to Not Provided; Direction maps
    N/S/E/W/A/O to their names and ANY other input to Not Provided.
    The severity half holds ([severity_label_total]) and so do the six
    codes and the absent direction ([direction_label_codes],
    [direction_label_absent]).  But [dirMap] is an object literal, and
    [dirMap[p.Direction]] also finds what the literal inherits: for the
    direction [constructor] the lookup yields the inherited member, which
    is truthy, so the fallback is not taken and the tooltip shows the
    text of a built-in function instead of Not Provided (the same for
    every member name of [Object.prototype], [direction_label_inherited]). *)
Theorem direction_label_inherited_key :
  let p : Object := {[ "Direction" := VStr "constructor" ]} in
  direction_label p = VBuiltin "constructor" /\
  direction_label p <> VStr "Not Provided" /\
  workzone_label p =
    tooltip_template "Not Provided" "Not Provided" "Not Provided" "Unknown City"
      "Unknown" "Not Provided" (native_text "constructor") "Not Provided"
      "Not Provided".
Proof.
  cbv zeta. split; [|split].
  - vm_compute. reflexivity.
  - vm_compute. discriminate.
  - reflexivity.
Qed.

(** C8.  For a county feature whose FIPS value is present and converts
    to the code [code]: when the table has the code, the county name is
    the mapped name, and when it has not, the name is Unknown; the
    tooltip text is that name followed by County. *)
Theorem county_tooltip_lookup (f : Feature) (code : Z) (layer : PathLayer) :
  loose_null (feature_fips f) = false ->
  Number (feature_fips f) = Int code ->
  match fipsToCounty !! code with
  | Some name =>
      county_name (feature_fips f) = name /\
      tooltip (countyEachFeature f layer) = Some (name ++ " County", true)
  | None =>
      county_name (feature_fips f) = "Unknown" /\
      tooltip (countyEachFeature f layer) = Some ("Unknown County", true)
  end.
Proof.
  intros Hpresent Hcode.
  unfold countyEachFeature, county_name.
  rewrite Hpresent, Hcode. simpl.
  destruct (fipsToCounty !! code) as [name|]; split; reflexivity.
Qed.

(** C9.  For a county feature [f] whose FIPS property is null or
    undefined, [onEachFeature] leaves the path as it was: no tooltip is
    bound and no pointer listener is attached, so no Unknown County text
    appears either.  For every feature [g], a tooltip is bound, and the
    two hover listeners are attached, exactly when its FIPS value is
    present. *)
Theorem county_without_fips (f g : Feature) (layer : PathLayer) :
  feature_fips f = VNull \/ feature_fips f = VUndefined ->
  countyEachFeature f layer = layer /\
  tooltip (countyEachFeature f fresh_path) = None /\
  listeners (countyEachFeature f fresh_path) = [] /\
  bool_decide (is_Some (tooltip (countyEachFeature g fresh_path))) =
    negb (loose_null (feature_fips g)) /\
  List.map fst (listeners (countyEachFeature g fresh_path)) =
    (if loose_null (feature_fips g) then [] else ["mouseover"; "mouseout"]).
Proof.
  intros Hnull.
  assert (Hf : loose_null (feature_fips f) = true)
    by (destruct Hnull as [-> | ->]; reflexivity).
  unfold countyEachFeature. rewrite Hf. simpl.
  repeat split; destruct (loose_null (feature_fips g)); reflexivity.
Qed.

Lemma string_app_cons (x : Ascii.ascii) (a b : string) :
  (String x a ++ b)%string = String x (a ++ b)%string.
Proof. reflexivity. Qed.

Lemma string_app_assoc (a b c : string) :
  ((a ++ b) ++ c)%string = (a ++ (b ++ c))%string.
Proof.
  induction a as [|x a IH]; [done|]. rewrite !string_app_cons. by rewrite IH.
Qed.




End TooltipFacts.

(* ===================================================================== *)
(** * Footprints of the operations *)
(* ===================================================================== *)

Local Open Scope list_scope.

Lemma init_requests_app (l1 l2 : list Effect) :
  init_requests (l1 ++ l2) = (init_requests l1 + init_requests l2)%nat.
Proof. unfold init_requests. by rewrite List.filter_app, length_app. Qed.

Lemma benign_refl (w : World) : benign w w.
Proof.
  split; try reflexivity.
  - exists []. rewrite app_nil_r. split; [done | apply not_elem_of_nil].
  - exists []. by rewrite app_nil_r.
Qed.

Lemma benign_trans (w1 w2 w3 : World) :
  benign w1 w2 -> benign w2 w3 -> benign w1 w3.
Proof.
  intros [? ? ? ? ? ? (fs1 & Hf1 & Hn1) (l1 & Hl1 & Hc1)]
         [? ? ? ? ? ? (fs2 & Hf2 & Hn2) (l2 & Hl2 & Hc2)].
  split; try congruence.
  - exists (fs1 ++ fs2). rewrite Hf2, Hf1, app_assoc. split; [done|].
    rewrite elem_of_app. tauto.
  - exists (l1 ++ l2). rewrite Hl2, Hl1, app_assoc. split; [done|].
    rewrite init_requests_app. lia.
Qed.

Lemma benign_fold {A : Type} (f : World -> A -> World) (xs : list A) :
  (forall w x, benign w (f w x)) ->
  forall w, benign w (fold_left f xs w).
Proof.
  intros Hf. induction xs as [|x xs IH]; intros w; simpl.
  - apply benign_refl.
  - eapply benign_trans; [apply Hf | apply IH].
Qed.

Lemma benign_emit (e : Effect) (w : World) :
  is_init_request e = false -> benign w (emit e w).
Proof.
  intros He. split; try reflexivity.
  - exists []. simpl. rewrite app_nil_r. split; [done | apply not_elem_of_nil].
  - exists [e]. split; [done|]. unfold init_requests. simpl. by rewrite He.
Qed.

Lemma benign_requestAnimationFrame (cb : Callback) (w : World) :
  cb <> CbInitLayersAndUI -> benign w (requestAnimationFrame cb w).
Proof.
  intros Hcb. split; try reflexivity.
  - exists [cb]. split; [done|]. rewrite list_elem_of_singleton. congruence.
  - exists [FxRequestFrame cb]. split; [done|].
    unfold init_requests. simpl. by destruct cb.
Qed.

Lemma benign_refreshAllLayers (w : World) : benign w (refreshAllLayers w).
Proof.
  unfold refreshAllLayers. generalize (incident_fields (this w)). intros ls.
  apply benign_fold. intros w' [layer|]; [by apply benign_emit | apply benign_refl].
Qed.

Lemma benign_onVisibilityRefresh (w : World) : benign w (onVisibilityRefresh w).
Proof.
  unfold onVisibilityRefresh. case_decide;
    [apply benign_refreshAllLayers | apply benign_refl].
Qed.

Lemma benign_invalidateSize (w : World) : benign w (invalidateSize w).
Proof. by apply benign_emit. Qed.

Lemma benign_log_columns (label : string) (cols : option (list Column)) (w : World) :
  benign w (log_columns label cols w).
Proof.
  destruct cols as [cs|]; simpl; [|apply benign_refl].
  apply benign_fold. intros w' c. unfold log_column.
  eapply benign_trans; [|by apply benign_emit].
  eapply benign_trans; by apply benign_emit.
Qed.

Lemma benign_refreshLayerControlCollapsibles (w : World) :
  benign w (refreshLayerControlCollapsibles w).
Proof.
  unfold refreshLayerControlCollapsibles.
  destruct (layerControl (this w));
    [by apply benign_requestAnimationFrame | apply benign_refl].
Qed.

Lemma benign_fire (type : string) (w : World) : benign w (fire type w).
Proof.
  unfold fire. generalize (map_handlers (map (this w))). intros hs.
  apply benign_fold. intros w' [t h].
  destruct (String.eqb t type); [|apply benign_refl].
  destruct h. by apply benign_requestAnimationFrame.
Qed.

Lemma update_tail (options : VisualUpdateOptions) (w : World) :
  benign (update_head w) (update options w).
Proof.
  unfold update, update_head.
  destruct (first_dataView options) as [[[cat|]]|].
  - eapply benign_trans; apply benign_log_columns.
  - by apply benign_emit.
  - by apply benign_emit.
Qed.

(** ** Projections of the operations that touch the visual *)

Lemma startAutoRefresh_frame (ms : Z) (w : World) :
  log (startAutoRefresh ms w) = log w /\
  frames (startAutoRefresh ms w) = frames w /\
  next_object (startAutoRefresh ms w) = next_object w /\
  visibility_listener (startAutoRefresh ms w) = visibility_listener w /\
  visibilityState (startAutoRefresh ms w) = visibilityState w /\
  this (startAutoRefresh ms w) =
    set_autoRefreshTimer (autoRefreshTimer (this (startAutoRefresh ms w))) (this w).
Proof.
  unfold startAutoRefresh, clearInterval, setInterval, timer_truthy.
  destruct w as [v ch fs ts h n vl vs l]. destruct v. simpl.
  repeat case_match; simpl; repeat split; reflexivity.
Qed.

Lemma destroy_frame (w : World) :
  log (destroy w) = log w /\
  frames (destroy w) = frames w /\
  next_object (destroy w) = next_object w /\
  next_handle (destroy w) = next_handle w /\
  visibility_listener (destroy w) = false /\
  this (destroy w) = set_map (map_remove (map (this w))) (this w).
Proof.
  unfold destroy, clearInterval, timer_truthy.
  destruct w as [v ch fs ts h n vl vs l]. destruct v. simpl.
  repeat case_match; simpl; repeat split; reflexivity.
Qed.

Lemma wire_collapsibles_frame (w : World) :
  log (wire_collapsibles w) = log w /\
  frames (wire_collapsibles w) = frames w /\
  intervals (wire_collapsibles w) = intervals w /\
  next_handle (wire_collapsibles w) = next_handle w /\
  next_object (wire_collapsibles w) = next_object w /\
  visibility_listener (wire_collapsibles w) = visibility_listener w /\
  visibilityState (wire_collapsibles w) = visibilityState w /\
  inited (this (wire_collapsibles w)) = inited (this w) /\
  autoRefreshTimer (this (wire_collapsibles w)) = autoRefreshTimer (this w) /\
  incident_fields (this (wire_collapsibles w)) = incident_fields (this w).
Proof.
  unfold wire_collapsibles.
  destruct (layerControl (this w)); repeat split; reflexivity.
Qed.

Lemma on_header_frame (f : GroupEl -> GroupEl) (i : nat) (w : World) :
  log (on_header f i w) = log w /\
  frames (on_header f i w) = frames w /\
  intervals (on_header f i w) = intervals w /\
  next_handle (on_header f i w) = next_handle w /\
  next_object (on_header f i w) = next_object w /\
  visibility_listener (on_header f i w) = visibility_listener w /\
  visibilityState (on_header f i w) = visibilityState w /\
  inited (this (on_header f i w)) = inited (this w) /\
  autoRefreshTimer (this (on_header f i w)) = autoRefreshTimer (this w) /\
  incident_fields (this (on_header f i w)) = incident_fields (this w).
Proof.
  unfold on_header.
  destruct (layerControl (this w)) as [c|]; [|repeat split; reflexivity].
  destruct (ctl_container c); repeat split; reflexivity.
Qed.

Lemma update_head_frame (w : World) :
  this (update_head w) = set_inited true (this w) /\
  intervals (update_head w) = intervals w /\
  next_handle (update_head w) = next_handle w /\
  next_object (update_head w) = next_object w /\
  visibility_listener (update_head w) = visibility_listener w /\
  visibilityState (update_head w) = visibilityState w /\
  frames (update_head w) =
    frames w ++ (if inited (this w) then [] else [CbInitLayersAndUI]) ++ [CbInvalidateSize] /\
  log (update_head w) =
    log w ++ (if inited (this w) then [] else [FxRequestFrame CbInitLayersAndUI])
          ++ [FxRequestFrame CbInvalidateSize].
Proof.
  unfold update_head, requestAnimationFrame.
  destruct w as [v ch fs ts h n vl vs l]. destruct v as [? ? i ? ? ? ? ? ? ? ? ? ? ? ? ? ? ?].
  destruct i; simpl; rewrite <- ?app_assoc; repeat split; reflexivity.
Qed.

Lemma update_frame (options : VisualUpdateOptions) (w : World) :
  this (update options w) = set_inited true (this w) /\
  intervals (update options w) = intervals w /\
  next_handle (update options w) = next_handle w /\
  next_object (update options w) = next_object w /\
  visibility_listener (update options w) = visibility_listener w /\
  visibilityState (update options w) = visibilityState w /\
  (exists fs, frames (update options w) =
     frames w ++ (if inited (this w) then [] else [CbInitLayersAndUI]) ++ fs /\
     CbInitLayersAndUI ∉ fs) /\
  init_requests (log (update options w)) =
    (init_requests (log w) + (if inited (this w) then 0 else 1))%nat.
Proof.
  destruct (update_tail options w) as [Ht Hi Hh Ho Hl Hv (fs & Hfs & Hn) (l & Hlog & Hc)].
  destruct (update_head_frame w) as (Ht' & Hi' & Hh' & Ho' & Hl' & Hv' & Hf' & Hlog').
  repeat split; try congruence.
  - exists (CbInvalidateSize :: fs). rewrite Hfs, Hf'. rewrite <- !app_assoc. split; [done|].
    rewrite elem_of_cons. intros [?|?]; [discriminate | done].
  - rewrite Hlog, Hlog'. rewrite !init_requests_app, Hc.
    destruct (inited (this w)); unfold init_requests; simpl; lia.
Qed.

(** ** Timers *)

Lemma timers_ok_ext (w w' : World) :
  intervals w' = intervals w ->
  autoRefreshTimer (this w') = autoRefreshTimer (this w) ->
  timers_ok w -> timers_ok w'.
Proof. unfold timers_ok. intros -> ->. done. Qed.

Lemma timers_ok_benign (w w' : World) : benign w w' -> timers_ok w -> timers_ok w'.
Proof. intros [Ht Hi _ _ _ _ _ _]. apply timers_ok_ext; congruence. Qed.

(** [startAutoRefresh] leaves the timer it starts as the only one, or none
    when the period is not positive. *)
Lemma startAutoRefresh_intervals (ms : Z) (w : World) :
  timers_ok w ->
  intervals (startAutoRefresh ms w) =
    (if (0 <? ms)%Z then [(Z.pos (next_handle w), ms)] else []) /\
  timers_ok (startAutoRefresh ms w).
Proof.
  unfold timers_ok, startAutoRefresh, clearInterval, setInterval, timer_truthy.
  destruct w as [v ch fs ts h n vl vs l]. destruct v. simpl.
  intros [-> | (h' & ms' & -> & ->)]; simpl.
  - repeat case_match; simpl; split; eauto.
  - rewrite Pos.eqb_refl. simpl.
    destruct (0 <? ms)%Z; simpl; split; eauto.
Qed.

Lemma destroy_intervals (w : World) :
  timers_ok w -> intervals (destroy w) = [] /\ timers_ok (destroy w).
Proof.
  unfold timers_ok, destroy, clearInterval, timer_truthy.
  destruct w as [v ch fs ts h n vl vs l]. destruct v. simpl.
  intros [-> | (h' & ms' & -> & ->)]; simpl.
  - repeat case_match; simpl; split; eauto.
  - rewrite Pos.eqb_refl. simpl. split; eauto.
Qed.

Section WidgetFacts.

Context {engine : Engine} {bundle : Bundle}.

(** [initLayersAndUI] is the start of the refresh timer on a world in
    which the layers and the control were just created. *)
Lemma initLayersAndUI_split (w : World) :
  exists w1 : World,
    initLayersAndUI w =
      with_visibility_listener true (startAutoRefresh (6 * 60 * 60 * 1000) w1) /\
    intervals w1 = intervals w /\
    next_handle w1 = next_handle w /\
    autoRefreshTimer (this w1) = autoRefreshTimer (this w) /\
    inited (this w1) = inited (this w) /\
    log w1 = log w /\
    frames w1 = frames w /\
    visibilityState w1 = visibilityState w /\
    next_object w1 = (next_object w + 11)%nat /\
    incident_fields (this w1) =
      List.map (fun t => Some (wz (incident_predicate t.1) (next_object w + t.2)))
        [ ("Truck Closure", 1%nat); ("Construction", 2%nat);
          ("Night Time Construction", 3%nat); ("Maintenance", 4%nat);
          ("Night Time Maintenance", 5%nat); ("Emergency Road Work", 6%nat);
          ("Road Obstruction", 7%nat); ("Weather Event", 8%nat);
          ("Special Event", 9%nat); ("Other", 10%nat) ] /\
    map_layers (map (this w1)) =
      map_layers (map (this w)) ++ [next_object w; (next_object w + 2)%nat] /\
    darkMap (this w1) = darkMap (this w) /\
    lightMap (this w1) = lightMap (this w) /\
    layerControl (this w1) =
      Some (groupedLayers
              [ ("Dark Basemap", tile_id (darkMap (this w)));
                ("Light Basemap", tile_id (lightMap (this w))) ]
              [ ("Boundaries", [ ("Counties", next_object w) ]);
                ("Work Zones",
                 List.map (fun t => (t.1, (next_object w + t.2)%nat))
                   [ ("Truck Closure", 1%nat); ("Construction", 2%nat);
                     ("Night Construction", 3%nat); ("Maintenance", 4%nat);
                     ("Night Time Maintenance", 5%nat); ("Emergency Road Work", 6%nat);
                     ("Road Obstruction", 7%nat); ("Weather Event", 8%nat);
                     ("Special Event", 9%nat); ("Other", 10%nat) ]) ]).
Proof.
  eexists. split; [reflexivity|]. simpl.
  rewrite <- app_assoc. repeat split; reflexivity.
Qed.

Lemma initLayersAndUI_frame (w : World) :
  log (initLayersAndUI w) = log w /\
  frames (initLayersAndUI w) = frames w /\
  inited (this (initLayersAndUI w)) = inited (this w) /\
  visibilityState (initLayersAndUI w) = visibilityState w /\
  visibility_listener (initLayersAndUI w) = true /\
  next_object (initLayersAndUI w) = (next_object w + 11)%nat.
Proof.
  destruct (initLayersAndUI_split w)
    as (w1 & -> & Hi & Hh & Ht & Hin & Hl & Hf & Hv & Ho & _).
  generalize (6 * 60 * 60 * 1000)%Z. intros ms.
  destruct (startAutoRefresh_frame ms w1) as (Hl' & Hf' & Ho' & _ & Hv' & Hthis).
  simpl. rewrite Hthis. simpl. repeat split; congruence.
Qed.

Lemma timers_ok_initLayersAndUI (w : World) :
  timers_ok w -> timers_ok (initLayersAndUI w).
Proof.
  intros Hw.
  destruct (initLayersAndUI_split w) as (w1 & -> & Hi & Hh & Ht & _).
  assert (H1 : timers_ok w1) by (by apply (timers_ok_ext w)).
  apply (startAutoRefresh_intervals (6 * 60 * 60 * 1000)) in H1 as [_ H1].
  revert H1. by apply timers_ok_ext.
Qed.

Lemma timers_ok_run_callback (w : World) (cb : Callback) :
  timers_ok w -> timers_ok (run_callback w cb).
Proof.
  destruct cb; simpl.
  - apply timers_ok_initLayersAndUI.
  - apply timers_ok_benign, benign_invalidateSize.
  - apply timers_ok_benign, benign_refreshLayerControlCollapsibles.
  - destruct (wire_collapsibles_frame w) as (_ & _ & Hi & _ & _ & _ & _ & _ & Ht & _).
    by apply timers_ok_ext.
Qed.

Lemma timers_ok_animation_frame (w : World) :
  timers_ok w -> timers_ok (animation_frame w).
Proof.
  unfold animation_frame. intros Hw.
  assert (H0 : timers_ok (with_frames [] w)) by (by apply (timers_ok_ext w)).
  revert H0. generalize (with_frames [] w). generalize (frames w).
  intros cbs. induction cbs as [|cb cbs IH]; intros w0 H0; simpl; [done|].
  apply IH. by apply timers_ok_run_callback.
Qed.

Lemma timers_ok_step (w : World) (e : Event) :
  timers_ok w -> timers_ok (step w e).
Proof.
  intros Hw. destruct e as [o| | |id|v|type|i|i key]; simpl.
  - destruct (update_frame o w) as (Ht & Hi & _).
    apply (timers_ok_ext w); [done | by rewrite Ht | done].
  - by apply destroy_intervals.
  - by apply timers_ok_animation_frame.
  - case_match; [|done]. revert Hw. apply timers_ok_benign, benign_refreshAllLayers.
  - assert (H0 : timers_ok (with_visibilityState v w)) by (by apply (timers_ok_ext w)).
    case_match; [|done]. revert H0. apply timers_ok_benign, benign_onVisibilityRefresh.
  - revert Hw. apply timers_ok_benign, benign_fire.
  - destruct (on_header_frame click_header i w) as (_ & _ & Hi & _ & _ & _ & _ & _ & Ht & _).
    by apply (timers_ok_ext w).
  - destruct (on_header_frame (keydown_header key) i w)
      as (_ & _ & Hi & _ & _ & _ & _ & _ & Ht & _).
    by apply (timers_ok_ext w).
Qed.

Lemma timers_ok_run (trace : list Event) (w : World) :
  timers_ok w -> timers_ok (run w trace).
Proof.
  revert w. induction trace as [|e trace IH]; intros w Hw; simpl; [done|].
  apply IH. by apply timers_ok_step.
Qed.

Lemma timers_ok_constructor (h : positive) (children : list string) :
  timers_ok (constructor h children).
Proof. by left. Qed.

Lemma timers_ok_length (w : World) : timers_ok w -> (length (intervals w) <= 1)%nat.
Proof. intros [-> | (h & ms & -> & _)]; simpl; lia. Qed.

(** C2.  In every state the widget can reach from its construction,
    whatever the host and the browser do, at most one refresh timer is
    running.  [startAutoRefresh] with a positive period cancels the
    running timer and leaves the one it starts as the only timer, so two
    starts in succession leave exactly one; [destroy] leaves none.  (A
    call with a period that is not positive starts no timer, by the
    guard [ms > 0], and only cancels.) *)
Theorem one_refresh_timer
    (h : positive) (children : list string) (trace : list Event) (ms1 ms2 : Z) :
  (0 < ms2)%Z ->
  let w := run (constructor h children) trace in
  (length (intervals w) <= 1)%nat /\
  intervals (startAutoRefresh ms2 w) = [(Z.pos (next_handle w), ms2)] /\
  length (intervals (startAutoRefresh ms2 (startAutoRefresh ms1 w))) = 1%nat /\
  intervals (destroy w) = [] /\
  intervals (destroy (startAutoRefresh ms2 (startAutoRefresh ms1 w))) = [].
Proof.
  intros Hms w.
  assert (Hw : timers_ok w) by apply timers_ok_run, timers_ok_constructor.
  destruct (startAutoRefresh_intervals ms1 w Hw) as [_ H1].
  destruct (startAutoRefresh_intervals ms2 _ H1) as [E2 H2].
  destruct (startAutoRefresh_intervals ms2 w Hw) as [E2' _].
  apply Z.ltb_lt in Hms. rewrite Hms in E2, E2'.
  repeat split.
  - by apply timers_ok_length.
  - exact E2'.
  - by rewrite E2.
  - by apply destroy_intervals.
  - by apply destroy_intervals.
Qed.
(* ------------------------------------------------------------------- *)
(** ** The guard of the deferred initialisation *)

Lemma run_app (w : World) (t1 t2 : list Event) :
  run w (t1 ++ t2) = run (run w t1) t2.
Proof. apply fold_left_app. Qed.

Lemma requests_match_ext (w w' : World) :
  inited (this w') = inited (this w) ->
  init_requests (log w') = init_requests (log w) ->
  requests_match w -> requests_match w'.
Proof. unfold requests_match. intros -> ->. done. Qed.

Lemma benign_quiet (w w' : World) :
  benign w w' ->
  inited (this w') = inited (this w) /\
  init_requests (log w') = init_requests (log w).
Proof.
  intros [Ht _ _ _ _ _ _ (l & Hl & Hc)]. split; [by rewrite Ht|].
  rewrite Hl, init_requests_app. lia.
Qed.

Lemma run_callback_quiet (w : World) (cb : Callback) :
  inited (this (run_callback w cb)) = inited (this w) /\
  init_requests (log (run_callback w cb)) = init_requests (log w).
Proof.
  destruct cb; cbn [run_callback].
  - destruct (initLayersAndUI_frame w) as (Hl & _ & Hi & _). by rewrite Hl, Hi.
  - apply benign_quiet, benign_invalidateSize.
  - apply benign_quiet, benign_refreshLayerControlCollapsibles.
  - destruct (wire_collapsibles_frame w) as (Hl & _ & _ & _ & _ & _ & _ & Hi & _).
    by rewrite Hl, Hi.
Qed.

Lemma animation_frame_quiet (w : World) :
  inited (this (animation_frame w)) = inited (this w) /\
  init_requests (log (animation_frame w)) = init_requests (log w).
Proof.
  unfold animation_frame.
  change (inited (this w)) with (inited (this (with_frames [] w))).
  change (log w) with (log (with_frames [] w)).
  generalize (with_frames [] w). generalize (frames w).
  intros cbs. induction cbs as [|cb cbs IH]; intros w0; simpl; [done|].
  destruct (IH (run_callback w0 cb)) as [-> ->]. apply run_callback_quiet.
Qed.

(** Only [update] marks the visual initialised and only the first
    [update] asks for the deferred initialisation. *)
Lemma step_requests (w : World) (e : Event) :
  inited (this (step w e)) = inited (this w) || is_update e /\
  init_requests (log (step w e)) =
    (init_requests (log w) + (if is_update e && negb (inited (this w)) then 1 else 0))%nat.
Proof.
  destruct e as [o| | |id|v|type|i|i key]; cbn [step is_update andb];
    rewrite ?orb_false_r, ?Nat.add_0_r.
  - destruct (update_frame o w) as (Ht & _ & _ & _ & _ & _ & _ & Hl).
    rewrite Ht, Hl. simpl. rewrite orb_true_r. by destruct (inited (this w)).
  - destruct (destroy_frame w) as (Hl & _ & _ & _ & _ & Ht). by rewrite Hl, Ht.
  - apply animation_frame_quiet.
  - case_match; [|done]. apply benign_quiet, benign_refreshAllLayers.
  - case_match; [|done].
    apply (benign_quiet (with_visibilityState v w)), benign_onVisibilityRefresh.
  - apply benign_quiet, benign_fire.
  - destruct (on_header_frame click_header i w)
      as (Hl & _ & _ & _ & _ & _ & _ & Hi & _). by rewrite Hl, Hi.
  - destruct (on_header_frame (keydown_header key) i w)
      as (Hl & _ & _ & _ & _ & _ & _ & Hi & _). by rewrite Hl, Hi.
Qed.

Lemma run_requests (trace : list Event) (w : World) :
  requests_match w ->
  inited (this (run w trace)) = inited (this w) || existsb is_update trace /\
  requests_match (run w trace).
Proof.
  revert w. induction trace as [|e trace IH]; intros w Hw; simpl.
  - by rewrite orb_false_r.
  - destruct (step_requests w e) as [Hi Hl].
    assert (Hs : requests_match (step w e)).
    { unfold requests_match in *. rewrite Hl, Hi, Hw.
      destruct (inited (this w)), (is_update e); reflexivity. }
    destruct (IH _ Hs) as [Hi' Hm]. split; [|done].
    by rewrite Hi', Hi, orb_assoc.
Qed.

Lemma requests_match_constructor (h : positive) (children : list string) :
  requests_match (constructor h children).
Proof. reflexivity. Qed.

(** ** The state before the deferred tick *)

Lemma Constructed_constructor (h : positive) (children : list string) :
  Constructed (constructor h children).
Proof. split; try reflexivity. simpl. by repeat constructor. Qed.

Lemma Constructed_ext (w w' : World) :
  this w' = this w ->
  intervals w' = intervals w ->
  visibility_listener w' = visibility_listener w ->
  Constructed w -> Constructed w'.
Proof. intros Ht Hi Hl [? ? ? ? ? ? ? ?]. split; rewrite ?Ht; congruence. Qed.

Lemma Constructed_set_inited (b : bool) (w w' : World) :
  this w' = set_inited b (this w) ->
  intervals w' = intervals w ->
  visibility_listener w' = visibility_listener w ->
  Constructed w -> Constructed w'.
Proof.
  intros Ht Hi Hl [? Hinc ? ? ? ? ? ?].
  split; rewrite ?Ht; try exact Hinc; simpl; congruence.
Qed.

Lemma Constructed_destroy (w : World) : Constructed w -> Constructed (destroy w).
Proof.
  intros [? Hinc ? Ht Hi ? ? ?].
  destruct (destroy_frame w) as (_ & _ & _ & _ & Hl & Hthis).
  assert (Hint : intervals (destroy w) = []).
  { apply destroy_intervals. by left. }
  split; rewrite ?Hthis; try exact Hinc; simpl; done.
Qed.

(** In the constructed state, an event other than an update finds
    nothing to run, and a frame neither while nothing is pending. *)
Lemma Constructed_step (w : World) (e : Event) :
  Constructed w ->
  is_update e = false ->
  is_frame e = false \/ frames w = [] ->
  Constructed (step w e) /\
  frames (step w e) = frames w /\
  inited (this (step w e)) = inited (this w).
Proof.
  intros Hw Hu Hf. pose proof Hw as [? ? Hc ? Hi Hl Hh ?].
  destruct e as [o| | |id|v|type|i|i key]; try done; cbn [step].
  - destruct (destroy_frame w) as (_ & Hfr & _ & _ & _ & Ht).
    split; [by apply Constructed_destroy|]. by rewrite Hfr, Ht.
  - destruct Hf as [Hf|Hf]; [done|].
    unfold animation_frame. rewrite Hf. simpl.
    split; [by apply (Constructed_ext w) | done].
  - rewrite Hi. simpl. done.
  - cbn [visibility_listener with_visibilityState]. rewrite Hl.
    split; [by apply (Constructed_ext w) | done].
  - unfold fire. rewrite Hh. simpl. done.
  - unfold on_header. rewrite Hc. done.
  - unfold on_header. rewrite Hc. done.
Qed.

Lemma pending_inits_app (w : World) (fs1 fs2 : list Callback) :
  frames w = fs1 ++ fs2 ->
  pending_inits w =
    (length (List.filter (fun cb => bool_decide (cb = CbInitLayersAndUI)) fs1) +
     length (List.filter (fun cb => bool_decide (cb = CbInitLayersAndUI)) fs2))%nat.
Proof. unfold pending_inits. intros ->. by rewrite List.filter_app, length_app. Qed.

Lemma no_init_filter (fs : list Callback) :
  CbInitLayersAndUI ∉ fs ->
  List.filter (fun cb => bool_decide (cb = CbInitLayersAndUI)) fs = [].
Proof.
  induction fs as [|cb fs IH]; [done|]. rewrite not_elem_of_cons. intros [Hne Hn].
  simpl. rewrite bool_decide_eq_false_2 by congruence. by apply IH.
Qed.

(** Before the first update: nothing is pending and the state is the
    constructed one. *)
Lemma before_first_update (trace : list Event) (w : World) :
  existsb is_update trace = false ->
  Constructed w -> frames w = [] ->
  Constructed (run w trace) /\ frames (run w trace) = [].
Proof.
  revert w. induction trace as [|e trace IH]; intros w Hu Hw Hf; simpl; [done|].
  simpl in Hu. apply orb_false_iff in Hu as [He Hu].
  destruct (Constructed_step w e Hw He (or_intror Hf)) as (Hc & Hfs & _).
  fold (step w e). apply IH; [done | done | by rewrite Hfs].
Qed.

(** From the first update until a frame runs: the state is still the
    constructed one, and the deferred initialisation waits in the frame
    queue exactly when an update has come. *)
Lemma until_the_tick (trace : list Event) (w : World) :
  existsb is_frame trace = false ->
  Constructed w ->
  pending_inits w = (if inited (this w) then 1 else 0)%nat ->
  Constructed (run w trace) /\
  pending_inits (run w trace) = (if inited (this (run w trace)) then 1 else 0)%nat.
Proof.
  revert w. induction trace as [|e trace IH]; intros w Hfr Hw Hp; simpl; [done|].
  simpl in Hfr. apply orb_false_iff in Hfr as [He Hfr].
  destruct (is_update e) eqn:Hu.
  { destruct e as [o| | | | | | |]; try done. simpl.
    destruct (update_frame o w) as (Ht & Hi & _ & _ & Hl & _ & (fs & Hfs & Hn) & _).
    apply IH; [done | by apply (Constructed_set_inited true w) |].
    rewrite Ht. simpl. rewrite app_assoc in Hfs.
    rewrite (pending_inits_app _ _ _ Hfs), (no_init_filter _ Hn).
    rewrite List.filter_app, length_app. fold (pending_inits w). rewrite Hp.
    by destruct (inited (this w)). }
  destruct (Constructed_step w e Hw Hu (or_introl He)) as (Hc & Hfs & Hi).
  fold (step w e). apply IH; [done | done |].
  unfold pending_inits. rewrite Hfs, Hi. exact Hp.
Qed.

(** C1.  Take any run of the widget from its construction: [pre] without
    an update, then [post] without an animation frame (so the deferred
    tick has not run), then [rest], arbitrary.  After [pre ++ post] the
    instance is still in the constructed state (no overlay layer, no
    layer control, no refresh timer, no visibility listener) and the
    deferred initialisation waits in the frame queue once if [post] has
    an update and not at all otherwise.  Over the whole run the deferred
    initialisation is asked for exactly once if an update came and never
    otherwise: later updates do not ask again. *)
Theorem deferred_init_once
    (h : positive) (children : list string) (pre post rest : list Event) :
  existsb is_update pre = false ->
  existsb is_frame post = false ->
  let w0 := constructor h children in
  Constructed (run w0 (pre ++ post)) /\
  pending_inits (run w0 (pre ++ post)) = (if existsb is_update post then 1 else 0)%nat /\
  init_requests (log (run w0 (pre ++ post))) =
    (if existsb is_update post then 1 else 0)%nat /\
  init_requests (log (run w0 (pre ++ post ++ rest))) =
    (if existsb is_update (post ++ rest) then 1 else 0)%nat.
Proof.
  intros Hpre Hpost w0.
  pose proof (requests_match_constructor h children) as Hm0. fold w0 in Hm0.
  destruct (before_first_update pre w0 Hpre (Constructed_constructor h children) eq_refl)
    as [Hc1 Hf1].
  destruct (run_requests pre w0 Hm0) as [Hi1 Hm1]. rewrite Hpre in Hi1. simpl in Hi1.
  assert (Hp1 : pending_inits (run w0 pre) =
                (if inited (this (run w0 pre)) then 1 else 0)%nat).
  { unfold pending_inits. by rewrite Hf1, Hi1. }
  destruct (until_the_tick post _ Hpost Hc1 Hp1) as [Hc2 Hp2].
  destruct (run_requests post _ Hm1) as [Hi2 Hm2]. rewrite Hi1 in Hi2. simpl in Hi2.
  destruct (run_requests rest _ Hm2) as [Hi3 Hm3].
  rewrite !run_app. split; [|split; [|split]].
  - exact Hc2.
  - by rewrite Hp2, Hi2.
  - unfold requests_match in Hm2. by rewrite Hm2, Hi2.
  - unfold requests_match in Hm3. by rewrite Hm3, Hi3, Hi2, existsb_app.
Qed.

(* ------------------------------------------------------------------- *)
(** ** The incident layers and their queries *)

Lemma initLayersAndUI_this (w : World) :
  exists (w1 : World) (t : option Z),
    this (initLayersAndUI w) = set_autoRefreshTimer t (this w1) /\
    incident_fields (this w1) =
      List.map (fun t => Some (wz (incident_predicate t.1) (next_object w + t.2)))
        [ ("Truck Closure", 1%nat); ("Construction", 2%nat);
          ("Night Time Construction", 3%nat); ("Maintenance", 4%nat);
          ("Night Time Maintenance", 5%nat); ("Emergency Road Work", 6%nat);
          ("Road Obstruction", 7%nat); ("Weather Event", 8%nat);
          ("Special Event", 9%nat); ("Other", 10%nat) ] /\
    map_layers (map (this w1)) =
      map_layers (map (this w)) ++ [next_object w; (next_object w + 2)%nat] /\
    darkMap (this w1) = darkMap (this w) /\
    lightMap (this w1) = lightMap (this w) /\
    layerControl (this w1) =
      Some (groupedLayers
              [ ("Dark Basemap", tile_id (darkMap (this w)));
                ("Light Basemap", tile_id (lightMap (this w))) ]
              [ ("Boundaries", [ ("Counties", next_object w) ]);
                ("Work Zones",
                 List.map (fun t => (t.1, (next_object w + t.2)%nat))
                   [ ("Truck Closure", 1%nat); ("Construction", 2%nat);
                     ("Night Construction", 3%nat); ("Maintenance", 4%nat);
                     ("Night Time Maintenance", 5%nat); ("Emergency Road Work", 6%nat);
                     ("Road Obstruction", 7%nat); ("Weather Event", 8%nat);
                     ("Special Event", 9%nat); ("Other", 10%nat) ]) ]).
Proof.
  destruct (initLayersAndUI_split w)
    as (w1 & E & _ & _ & _ & _ & _ & _ & _ & _ & Hf & Hm & Hd & Hl & Hc).
  exists w1. rewrite E. generalize (6 * 60 * 60 * 1000)%Z. intros ms.
  destruct (startAutoRefresh_frame ms w1) as (_ & _ & _ & _ & _ & Ht).
  eexists. split; [exact Ht|]. done.
Qed.

Lemma initLayersAndUI_fields (w : World) :
  incident_fields (this (initLayersAndUI w)) =
    List.map (fun t => Some (wz (incident_predicate t.1) (next_object w + t.2)))
      [ ("Truck Closure", 1%nat); ("Construction", 2%nat);
        ("Night Time Construction", 3%nat); ("Maintenance", 4%nat);
        ("Night Time Maintenance", 5%nat); ("Emergency Road Work", 6%nat);
        ("Road Obstruction", 7%nat); ("Weather Event", 8%nat);
        ("Special Event", 9%nat); ("Other", 10%nat) ].
Proof.
  destruct (initLayersAndUI_this w) as (w1 & t & Ht & Hf & _).
  rewrite <- Hf. by rewrite Ht.
Qed.

(** C6.  Whatever the state in which the deferred initialisation runs,
    the ten incident layers it creates query the feature service with
    the predicates IncidentType = '<Type>' of the ten types, in the order
    Truck Closure, Construction, Night Time Construction, Maintenance,
    Night Time Maintenance, Emergency Road Work, Road Obstruction,
    Weather Event, Special Event, Other; all of them at the same
    service. *)
Theorem incident_predicates (w : World) :
  List.map (fmap fl_where) (incident_fields (this (initLayersAndUI w))) =
    List.map (fun type => Some (incident_predicate type)) incident_types /\
  List.map fl_where (incident_layers (this (initLayersAndUI w))) =
    List.map incident_predicate incident_types /\
  List.map fl_url (incident_layers (this (initLayersAndUI w))) =
    List.map (fun _ => tims) incident_types.
Proof.
  unfold incident_layers. rewrite initLayersAndUI_fields.
  split; [|split]; reflexivity.
Qed.

(* ------------------------------------------------------------------- *)
(** ** Re-queries *)

Lemma refresh_fold_log (ls : list (option EsriFeatureLayer)) (w : World) :
  log (fold_left
         (fun w l => match l with Some layer => emit (FxRefresh layer) w | None => w end)
         ls w) =
  log w ++ List.map FxRefresh (omap id ls).
Proof.
  revert w. induction ls as [|[layer|] ls IH]; intros w; simpl.
  - by rewrite app_nil_r.
  - rewrite IH. simpl. by rewrite <- app_assoc.
  - apply IH.
Qed.

Lemma refreshAllLayers_log (w : World) :
  log (refreshAllLayers w) = log w ++ requery_all (this w).
Proof. apply refresh_fold_log. Qed.

Lemma visibility_step (w : World) (s : Visibility) :
  visibility_listener w = true ->
  log (step w (EvVisibilityChange s)) = log w ++ visibility_requeries (this w) s /\
  this (step w (EvVisibilityChange s)) = this w /\
  visibility_listener (step w (EvVisibilityChange s)) = true.
Proof.
  intros Hl. cbn [step]. cbn [visibility_listener with_visibilityState].
  rewrite Hl.
  destruct (benign_onVisibilityRefresh (with_visibilityState s w))
    as [Ht _ _ _ Hl' _ _ _].
  split; [|split; [exact Ht | by rewrite Hl']].
  unfold onVisibilityRefresh. cbn [visibilityState with_visibilityState].
  destruct s; case_decide; try done.
  - exact (refreshAllLayers_log (with_visibilityState Visible w)).
  - cbn [visibility_requeries log with_visibilityState]. by rewrite app_nil_r.
Qed.

Lemma visibility_run (vs : list Visibility) (w : World) :
  visibility_listener w = true ->
  log (run w (List.map EvVisibilityChange vs)) =
    log w ++ flat_map (visibility_requeries (this w)) vs.
Proof.
  revert w. induction vs as [|s vs IH]; intros w Hl.
  - simpl. by rewrite app_nil_r.
  - destruct (visibility_step w s Hl) as (Hlog & Ht & Hl').
    cbn [List.map run fold_left flat_map].
    fold (run (step w (EvVisibilityChange s)) (List.map EvVisibilityChange vs)).
    rewrite (IH _ Hl'), Hlog, Ht. by rewrite <- app_assoc.
Qed.

(** ** The layers exist whenever the listener does *)

Lemma layers_known_ext (w w' : World) :
  visibility_listener w' = visibility_listener w ->
  incident_fields (this w') = incident_fields (this w) ->
  layers_known w -> layers_known w'.
Proof. unfold layers_known, incident_layers. intros -> ->. done. Qed.

Lemma layers_known_benign (w w' : World) : benign w w' -> layers_known w -> layers_known w'.
Proof. intros [Ht _ _ _ Hl _ _ _]. apply layers_known_ext; [done | by rewrite Ht]. Qed.

Lemma layers_known_run_callback (w : World) (cb : Callback) :
  layers_known w -> layers_known (run_callback w cb).
Proof.
  destruct cb; cbn [run_callback].
  - intros _ _. unfold incident_layers. rewrite initLayersAndUI_fields. reflexivity.
  - apply layers_known_benign, benign_invalidateSize.
  - apply layers_known_benign, benign_refreshLayerControlCollapsibles.
  - destruct (wire_collapsibles_frame w) as (_ & _ & _ & _ & _ & Hl & _ & _ & _ & Hf).
    by apply layers_known_ext.
Qed.

Lemma layers_known_step (w : World) (e : Event) :
  layers_known w -> layers_known (step w e).
Proof.
  intros Hw. destruct e as [o| | |id|v|type|i|i key]; cbn [step].
  - destruct (update_frame o w) as (Ht & _ & _ & _ & Hl & _).
    apply (layers_known_ext w); [done | by rewrite Ht | done].
  - destruct (destroy_frame w) as (_ & _ & _ & _ & Hl & _).
    intros Hl'. congruence.
  - unfold animation_frame.
    assert (H0 : layers_known (with_frames [] w)) by exact Hw.
    revert H0. generalize (with_frames [] w). generalize (frames w).
    intros cbs. induction cbs as [|cb cbs IH]; intros w0 H0; simpl; [done|].
    apply IH. by apply layers_known_run_callback.
  - case_match; [|done]. revert Hw. apply layers_known_benign, benign_refreshAllLayers.
  - assert (H0 : layers_known (with_visibilityState v w)) by exact Hw.
    case_match; [|done]. revert H0. apply layers_known_benign, benign_onVisibilityRefresh.
  - revert Hw. apply layers_known_benign, benign_fire.
  - destruct (on_header_frame click_header i w) as (_ & _ & _ & _ & _ & Hl & _ & _ & _ & Hf).
    by apply (layers_known_ext w).
  - destruct (on_header_frame (keydown_header key) i w)
      as (_ & _ & _ & _ & _ & Hl & _ & _ & _ & Hf).
    by apply (layers_known_ext w).
Qed.

Lemma layers_known_run (trace : list Event) (w : World) :
  layers_known w -> layers_known (run w trace).
Proof.
  revert w. induction trace as [|e trace IH]; intros w Hw; simpl; [done|].
  apply IH. by apply layers_known_step.
Qed.

(** C4.  In any state the widget reaches from its construction in which
    the visibility listener is registered, and for every sequence [vs]
    of page-visibility changes: what is sent to the feature service is
    one re-query of all incident layers for each change to Visible and
    nothing for a change to Hidden, in the order of the changes.  Hidden
    alone sends nothing; Hidden then Visible sends exactly one re-query
    of all layers.  One such re-query asks for each of the ten layers,
    with the predicates of the ten incident types. *)
Theorem visibility_requery
    (h : positive) (children : list string) (trace : list Event) (vs : list Visibility) :
  let w := run (constructor h children) trace in
  visibility_listener w = true ->
  log (run w (List.map EvVisibilityChange vs)) =
    log w ++ flat_map (visibility_requeries (this w)) vs /\
  log (run w [EvVisibilityChange Hidden]) = log w /\
  log (run w [EvVisibilityChange Hidden; EvVisibilityChange Visible]) =
    log w ++ requery_all (this w) /\
  requery_all (this w) = List.map FxRefresh (incident_layers (this w)) /\
  List.map fl_where (incident_layers (this w)) =
    List.map incident_predicate incident_types.
Proof.
  intros w Hl.
  assert (Hk : layers_known w) by (apply layers_known_run; intros Hf; discriminate Hf).
  pose proof (visibility_run [Hidden] w Hl) as H1.
  pose proof (visibility_run [Hidden; Visible] w Hl) as H2.
  simpl flat_map in H1, H2. rewrite !app_nil_r in *.
  split; [by apply visibility_run|].
  split; [exact H1|]. split; [exact H2|]. split; [reflexivity | by apply Hk].
Qed.

(* ------------------------------------------------------------------- *)
(** ** The first frame *)

Lemma log_columns_frames (label : string) (cols : option (list Column)) (w : World) :
  frames (log_columns label cols w) = frames w.
Proof.
  destruct cols as [cs|]; simpl; [|done].
  revert w. induction cs as [|c cs IH]; intros w; simpl; [done|]. by rewrite IH.
Qed.

Lemma update_frames (options : VisualUpdateOptions) (w : World) :
  frames (update options w) =
    frames w ++ (if inited (this w) then [] else [CbInitLayersAndUI]) ++ [CbInvalidateSize].
Proof.
  destruct (update_head_frame w) as (_ & _ & _ & _ & _ & _ & <- & _).
  unfold update. fold (update_head w).
  destruct (first_dataView options) as [[[cat|]]|]; try reflexivity.
  by rewrite !log_columns_frames.
Qed.

Lemma frames_first_update
    (h : positive) (children : list string) (options : VisualUpdateOptions) :
  frames (update options (constructor h children)) = [CbInitLayersAndUI; CbInvalidateSize].
Proof. rewrite update_frames. reflexivity. Qed.

Lemma animation_frame_of (w : World) (cbs : list Callback) :
  frames w = cbs -> animation_frame w = fold_left run_callback cbs (with_frames [] w).
Proof. intros <-. reflexivity. Qed.

Lemma run_two (w : World) (a b : Event) : run w [a; b] = step (step w a) b.
Proof. reflexivity. Qed.

Lemma step_update (w : World) (options : VisualUpdateOptions) :
  step w (EvUpdate options) = update options w.
Proof. reflexivity. Qed.

Lemma step_frame (w : World) : step w EvFrame = animation_frame w.
Proof. reflexivity. Qed.

Lemma fold_two (w : World) (a b : Callback) :
  fold_left run_callback [a; b] w = run_callback (run_callback w a) b.
Proof. reflexivity. Qed.

Lemma run_init (w : World) : run_callback w CbInitLayersAndUI = initLayersAndUI w.
Proof. reflexivity. Qed.

Lemma run_invalidate (w : World) : run_callback w CbInvalidateSize = invalidateSize w.
Proof. reflexivity. Qed.

Lemma this_invalidateSize (w : World) : this (invalidateSize w) = this w.
Proof. reflexivity. Qed.

Lemma this_with_frames (fs : list Callback) (w : World) : this (with_frames fs w) = this w.
Proof. reflexivity. Qed.

Lemma next_object_with_frames (fs : list Callback) (w : World) :
  next_object (with_frames fs w) = next_object w.
Proof. reflexivity. Qed.

Lemma first_frame_this
    (h : positive) (children : list string) (options : VisualUpdateOptions) :
  this (run (constructor h children) [EvUpdate options; EvFrame]) =
  this (initLayersAndUI (with_frames [] (update options (constructor h children)))).
Proof.
  rewrite run_two, step_update, step_frame.
  rewrite (animation_frame_of _ _ (frames_first_update h children options)).
  by rewrite fold_two, run_init, run_invalidate, this_invalidateSize.
Qed.

Lemma visual_after_timer (t : option Z) (v : Visual) :
  incident_fields (set_autoRefreshTimer t v) = incident_fields v /\
  map (set_autoRefreshTimer t v) = map v /\
  darkMap (set_autoRefreshTimer t v) = darkMap v /\
  lightMap (set_autoRefreshTimer t v) = lightMap v /\
  layerControl (set_autoRefreshTimer t v) = layerControl v.
Proof. repeat split; reflexivity. Qed.

Lemma visual_after_inited (b : bool) (v : Visual) :
  map (set_inited b v) = map v /\
  darkMap (set_inited b v) = darkMap v /\
  lightMap (set_inited b v) = lightMap v.
Proof. repeat split; reflexivity. Qed.

Lemma constructor_fields (h : positive) (children : list string) :
  let v := this (constructor h children) in
  map_layers (map v) = [0%nat] /\
  tile_id (darkMap v) = 0%nat /\
  tile_id (lightMap v) = 1%nat /\
  next_object (constructor h children) = 2%nat.
Proof. repeat split; reflexivity. Qed.

(** The state after the first update and the frame that follows it. *)
Lemma first_frame_state
    (h : positive) (children : list string) (options : VisualUpdateOptions) :
  let w := run (constructor h children) [EvUpdate options; EvFrame] in
  incident_fields (this w) =
    List.map (fun t => Some (wz (incident_predicate t.1) t.2))
      [ ("Truck Closure", 3%nat); ("Construction", 4%nat);
        ("Night Time Construction", 5%nat); ("Maintenance", 6%nat);
        ("Night Time Maintenance", 7%nat); ("Emergency Road Work", 8%nat);
        ("Road Obstruction", 9%nat); ("Weather Event", 10%nat);
        ("Special Event", 11%nat); ("Other", 12%nat) ] /\
  map_layers (map (this w)) = [0; 2; 4]%nat /\
  tile_id (darkMap (this w)) = 0%nat /\
  tile_id (lightMap (this w)) = 1%nat /\
  layerControl (this w) =
    Some (groupedLayers
            [ ("Dark Basemap", 0%nat); ("Light Basemap", 1%nat) ]
            [ ("Boundaries", [ ("Counties", 2%nat) ]);
              ("Work Zones",
               [ ("Truck Closure", 3%nat); ("Construction", 4%nat);
                 ("Night Construction", 5%nat); ("Maintenance", 6%nat);
                 ("Night Time Maintenance", 7%nat); ("Emergency Road Work", 8%nat);
                 ("Road Obstruction", 9%nat); ("Weather Event", 10%nat);
                 ("Special Event", 11%nat); ("Other", 12%nat) ]) ]).
Proof.
  cbv zeta. rewrite first_frame_this.
  destruct (update_frame options (constructor h children)) as (Ht & _ & _ & Ho & _).
  destruct (constructor_fields h children) as (Hm0 & Hd0 & Hl0 & Ho0).
  destruct (initLayersAndUI_this (with_frames [] (update options (constructor h children))))
    as (w2 & t & -> & Hf & Hm & Hd & Hl & Hc).
  destruct (visual_after_timer t (this w2)) as (-> & -> & -> & -> & ->).
  rewrite next_object_with_frames, this_with_frames, Ho, Ho0, Ht in *.
  destruct (visual_after_inited true (this (constructor h children))) as (Em & Ed & El).
  rewrite Em, Ed, El, ?Hm0, ?Hd0, ?Hl0 in *.
  rewrite Hf, Hm, Hd, Hl, Hc, Hd0, Hl0.
  split; [|split; [|split; [|split]]]; reflexivity.
Qed.

(** C5 (amended).  Right after the layers are initialised by the first
    update and its frame: the Construction layer is the one incident
    layer on the map; the other nine are off the map; all ten are
    members of the Work Zones group of the layer control; the control
    lists the two basemaps, of which the dark one, the default, is on the
    map and ONE, the light one, is not. *)
Theorem initial_rendering_after_init
    (h : positive) (children : list string) (options : VisualUpdateOptions) :
  let w := run (constructor h children) [EvUpdate options; EvFrame] in
  initial_rendering 1 w /\
  on_map (this w) (tile_id (darkMap (this w))) = true /\
  on_map (this w) (tile_id (lightMap (this w))) = false /\
  exists c, layerControl (this w) = Some c /\
    unrendered_basemaps (this w) c = [("Light Basemap", tile_id (lightMap (this w)))].
Proof.
  intros w.
  destruct (first_frame_state h children options) as (Hf & Hm & Hd & Hl & Hc).
  fold w in Hf, Hm, Hd, Hl, Hc.
  unfold initial_rendering, unrendered_basemaps, incident_layers, on_map.
  cbv zeta. rewrite Hf, Hm, Hd, Hl, Hc.
  split; [|split; [|split]].
  - eexists. split; [reflexivity|]. repeat split; reflexivity.
  - reflexivity.
  - reflexivity.
  - eexists. split; reflexivity.
Qed.

End WidgetFacts.

(* ===================================================================== *)
(** * Collapsible headers are wired once *)
(* ===================================================================== *)

Lemma wire_header_name (g : GroupEl) : grp_name (wire_header g) = grp_name g.
Proof. unfold wire_header. by destruct (hdr_gliWired g). Qed.

Lemma wire_header_wired (g : GroupEl) : hdr_gliWired (wire_header g) = true.
Proof. unfold wire_header. by destruct (hdr_gliWired g) eqn:E. Qed.

(** A wired header is left as it is. *)
Lemma wire_header_noop (g : GroupEl) : hdr_gliWired g = true -> wire_header g = g.
Proof. unfold wire_header. by intros ->. Qed.

Lemma wire_header_idempotent (g : GroupEl) : wire_header (wire_header g) = wire_header g.
Proof. apply wire_header_noop, wire_header_wired. Qed.

Lemma wire_first_idempotent (name : string) (groups : list GroupEl) :
  wire_first name (wire_first name groups) = wire_first name groups.
Proof.
  induction groups as [|g groups IH]; simpl; [done|].
  destruct (String.eqb (Text.normalize (grp_name g)) (Text.normalize name)) eqn:E; simpl.
  - by rewrite wire_header_name, E, wire_header_idempotent.
  - by rewrite E, IH.
Qed.

Lemma find_group_wire_first (name : string) (groups : list GroupEl) :
  find_group name (wire_first name groups) = wire_header <$> find_group name groups.
Proof.
  induction groups as [|g groups IH]; simpl; [done|].
  destruct (String.eqb (Text.normalize (grp_name g)) (Text.normalize name)) eqn:E; simpl.
  - by rewrite wire_header_name, E.
  - by rewrite E, IH.
Qed.

Lemma wire_first_noop (name : string) (groups : list GroupEl) (g : GroupEl) :
  find_group name groups = Some g -> hdr_gliWired g = true ->
  wire_first name groups = groups.
Proof.
  induction groups as [|g' groups IH]; simpl; [done|].
  destruct (String.eqb (Text.normalize (grp_name g')) (Text.normalize name)).
  - intros [= ->] Hw. by rewrite wire_header_noop.
  - intros Hf Hw. by rewrite IH.
Qed.

(** Wiring a group whose header is already wired changes nothing. *)
Lemma wired_group_noop (c : LayerControl) (name : string) (g : GroupEl) :
  control_group c name = Some g -> hdr_gliWired g = true ->
  makeGroupedLayerCollapsible c name = c.
Proof.
  unfold control_group, makeGroupedLayerCollapsible.
  destruct c as [b o cl ex gc [groups|]]; simpl; [|done].
  intros Hf Hw. by rewrite (wire_first_noop _ _ _ Hf Hw).
Qed.

(** Wiring is idempotent, whether or not the group is found. *)
Lemma makeGroupedLayerCollapsible_idempotent (c : LayerControl) (name : string) :
  makeGroupedLayerCollapsible (makeGroupedLayerCollapsible c name) name =
  makeGroupedLayerCollapsible c name.
Proof.
  unfold makeGroupedLayerCollapsible.
  destruct c as [b o cl ex gc [groups|]]; simpl; [|done].
  by rewrite wire_first_idempotent.
Qed.

Lemma control_group_wired (c : LayerControl) (name : string) :
  control_group (makeGroupedLayerCollapsible c name) name =
  wire_header <$> control_group c name.
Proof.
  unfold control_group, makeGroupedLayerCollapsible.
  destruct c as [b o cl ex gc [groups|]]; simpl; [|done].
  apply find_group_wire_first.
Qed.

Lemma setCollapsed_items (b : bool) (g : GroupEl) :
  grp_items (setCollapsed b g) =
  List.map (fun _ => if b then "none"%string else EmptyString) (grp_items g).
Proof. reflexivity. Qed.

(** C3.  Take a control in which the header of the group [name] is found,
    rendered by the control and not yet wired (no listener on it).  The
    first wiring marks the header and attaches one click listener and one
    keydown listener; the second wiring is a no-op: the control is the
    same after it, and the header still carries the single click
    listener.  So one click after the two invocations runs one toggle: the
    members, hidden by the wiring, are all shown again. *)
Theorem wiring_is_idempotent (c : LayerControl) (name : string) (g : GroupEl) :
  control_group c name = Some g ->
  hdr_gliWired g = false ->
  hdr_listeners g = [] ->
  let once := makeGroupedLayerCollapsible c name in
  let twice := makeGroupedLayerCollapsible once name in
  twice = once /\
  exists g' : GroupEl,
    control_group twice name = Some g' /\
    hdr_gliWired g' = true /\
    hdr_listeners g' = [("click"%string, ClickToggle); ("keydown"%string, KeydownToggle)] /\
    List.filter (fun l => String.eqb (fst l) "click") (hdr_listeners g') =
      [("click"%string, ClickToggle)] /\
    click_header g' = toggle g' /\
    grp_items g' = List.map (fun _ => "none"%string) (grp_items g) /\
    grp_items (click_header g') = List.map (fun _ => EmptyString) (grp_items g).
Proof.
  intros Hfound Hfresh Hnone once twice.
  assert (Hidem : twice = once) by apply makeGroupedLayerCollapsible_idempotent.
  split; [exact Hidem|]. exists (wire_header g).
  split.
  { rewrite Hidem. unfold once. by rewrite control_group_wired, Hfound. }
  split; [apply wire_header_wired|].
  assert (Hl : hdr_listeners (wire_header g) =
               [("click"%string, ClickToggle); ("keydown"%string, KeydownToggle)]).
  { unfold wire_header. rewrite Hfresh. simpl. by rewrite Hnone. }
  split; [exact Hl|]. split; [by rewrite Hl|].
  assert (Hc : click_header (wire_header g) = toggle (wire_header g)).
  { unfold click_header, dispatch_header. rewrite Hl. reflexivity. }
  split; [exact Hc|].
  assert (Hi : grp_items (wire_header g) = List.map (fun _ => "none"%string) (grp_items g)).
  { unfold wire_header. rewrite Hfresh. reflexivity. }
  split; [exact Hi|].
  rewrite Hc. unfold toggle, first_item_hidden. rewrite setCollapsed_items, Hi.
  destruct (grp_items g) as [|d ds]; [reflexivity|].
  simpl. f_equal. rewrite List.map_map. reflexivity.
Qed.

(* ===================================================================== *)
(** * The map container *)
(* ===================================================================== *)

Lemma count_id_remove_first (id : string) (children : list string) :
  count_id id (remove_first id children) = Nat.pred (count_id id children).
Proof.
  unfold count_id. induction children as [|c cs IH]; simpl; [done|].
  rewrite (String.eqb_sym c id).
  destruct (String.eqb id c) eqn:E; simpl; [done|]. by rewrite E, IH.
Qed.

Lemma other_children_remove_first (id : string) (children : list string) :
  other_children id (remove_first id children) = other_children id children.
Proof.
  unfold other_children. induction children as [|c cs IH]; simpl; [done|].
  rewrite (String.eqb_sym c id).
  destruct (String.eqb id c) eqn:E; simpl; [done|]. by rewrite E, IH.
Qed.

Lemma remove_first_absent (id : string) (children : list string) :
  count_id id children = 0%nat -> remove_first id children = children.
Proof.
  unfold count_id. induction children as [|c cs IH]; simpl; [done|].
  rewrite (String.eqb_sym c id).
  destruct (String.eqb id c); simpl; [done|]. intros H. by rewrite IH.
Qed.

Lemma remove_first_snoc (id : string) (children : list string) :
  remove_first id (children ++ [id]) =
    remove_first id children ++ (if (count_id id children =? 0)%nat then [] else [id]).
Proof.
  unfold count_id. induction children as [|c cs IH]; simpl.
  - by rewrite String.eqb_refl.
  - rewrite (String.eqb_sym c id).
    destruct (String.eqb id c); simpl; [done|]. by rewrite IH.
Qed.

Lemma count_id_other (id : string) (children : list string) :
  count_id id (other_children id children) = 0%nat.
Proof.
  unfold count_id, other_children. induction children as [|c cs IH]; simpl; [done|].
  destruct (String.eqb id c) eqn:E; simpl; [done|]. by rewrite E.
Qed.

(** After [createMapContainer] the host element ends with the new map
    container; if it held no container or one, it now holds exactly one
    (of several stale ones only the first is removed); the children with
    another id are kept, in their order.  The constructor leaves the host
    in that state. *)
Theorem createMapContainer_replaces (h : positive) (children : list string) :
  count_id "mapid" (createMapContainer children) =
    Nat.max 1 (count_id "mapid" children) /\
  other_children "mapid" (createMapContainer children) =
    other_children "mapid" children /\
  last (createMapContainer children) = Some "mapid"%string /\
  dom_children (constructor h children) = createMapContainer children /\
  createMapContainer (createMapContainer (other_children "mapid" children)) =
    createMapContainer (other_children "mapid" children).
Proof.
  unfold createMapContainer. split; [|split; [|split; [|split]]].
  - unfold count_id. rewrite List.filter_app, length_app.
    fold (count_id "mapid" (remove_first "mapid" children)).
    rewrite count_id_remove_first. fold (count_id "mapid" children). simpl. lia.
  - unfold other_children. rewrite List.filter_app.
    fold (other_children "mapid" (remove_first "mapid" children)).
    rewrite other_children_remove_first. simpl. by rewrite app_nil_r.
  - by rewrite last_snoc.
  - reflexivity.
  - rewrite (remove_first_absent _ _ (count_id_other "mapid" children)).
    rewrite remove_first_snoc, (remove_first_absent _ _ (count_id_other "mapid" children)).
    rewrite count_id_other. simpl. by rewrite app_nil_r.
Qed.

(* ===================================================================== *)
(** * A wired header under clicks and keys *)
(* ===================================================================== *)

Lemma setCollapsed_twice (b b' : bool) (g : GroupEl) :
  setCollapsed b (setCollapsed b' g) = setCollapsed b g.
Proof. unfold setCollapsed. simpl. by rewrite List.map_map. Qed.

Lemma toggle_setCollapsed (b : bool) (g : GroupEl) :
  toggle (setCollapsed b g) =
    setCollapsed (match grp_items g with [] => true | _ => negb b end) g.
Proof.
  unfold toggle, first_item_hidden. rewrite setCollapsed_twice.
  rewrite setCollapsed_items. destruct (grp_items g) as [|d ds]; [done|].
  simpl. by destruct b.
Qed.

(** On a header with the two listeners of the visual, an event toggles
    the group or does nothing. *)
Lemma header_event_wired (g : GroupEl) (e : HeaderEvent) :
  hdr_listeners g = [("click"%string, ClickToggle); ("keydown"%string, KeydownToggle)] ->
  header_event g e = if toggles e then toggle g else g.
Proof.
  intros Hl. destruct e as [|key]; simpl.
  - unfold click_header, dispatch_header. by rewrite Hl.
  - unfold keydown_header, dispatch_header. rewrite Hl. reflexivity.
Qed.

Lemma header_events_from (g : GroupEl) (events : list HeaderEvent) (b : bool) :
  hdr_listeners g = [("click"%string, ClickToggle); ("keydown"%string, KeydownToggle)] ->
  fold_left header_event events (setCollapsed b g) =
    setCollapsed
      (match grp_items g with
       | [] => if (toggle_count events =? 0)%nat then b else true
       | _ => if Nat.even (toggle_count events) then b else negb b
       end) g.
Proof.
  intros Hl. revert b. induction events as [|e es IH]; intros b.
  - simpl. by destruct (grp_items g).
  - cbn [fold_left]. rewrite header_event_wired by exact Hl.
    unfold toggle_count in *. cbn [List.filter].
    destruct (toggles e); cbn [length].
    + rewrite toggle_setCollapsed, IH.
      destruct (grp_items g) as [|d ds].
      * by destruct (length (List.filter toggles es) =? 0)%nat.
      * rewrite Nat.even_succ, <- Nat.negb_even.
        destruct (Nat.even (length (List.filter toggles es))), b; reflexivity.
    + apply IH.
Qed.

(** Wire an unwired header, then let the user click and press keys in any
    order.  Only clicks and the keys Enter and Space count; the group is
    collapsed after an even number of them and expanded after an odd
    number (a group without members stays collapsed); nothing else of the
    header changes, so it keeps its single click listener and the marker
    class always agrees with what is shown. *)
Theorem header_events_parity (g : GroupEl) (events : list HeaderEvent) :
  hdr_gliWired g = false ->
  hdr_listeners g = [] ->
  let g' := wire_header g in
  let final := fold_left header_event events g' in
  final =
    setCollapsed
      (match grp_items g with
       | [] => true
       | _ => Nat.even (toggle_count events)
       end) g' /\
  hdr_listeners final = [("click"%string, ClickToggle); ("keydown"%string, KeydownToggle)] /\
  grp_items final =
    List.map (fun _ => if hdr_is_collapsed final then "none"%string else EmptyString)
      (grp_items g).
Proof.
  intros Hw Hl g' final.
  assert (Hg : g' = setCollapsed true g').
  { unfold g', wire_header. rewrite Hw. by rewrite setCollapsed_twice. }
  assert (Hl' : hdr_listeners g' =
                [("click"%string, ClickToggle); ("keydown"%string, KeydownToggle)]).
  { unfold g', wire_header. rewrite Hw. simpl. by rewrite Hl. }
  assert (Hi : grp_items g' = List.map (fun _ => "none"%string) (grp_items g)).
  { unfold g', wire_header. by rewrite Hw. }
  assert (Hf : final =
               setCollapsed
                 (match grp_items g with
                  | [] => true
                  | _ => Nat.even (toggle_count events)
                  end) g').
  { unfold final. rewrite Hg at 1. rewrite (header_events_from g' events true Hl').
    rewrite Hi. destruct (grp_items g) as [|d ds]; simpl.
    - by destruct (toggle_count events =? 0)%nat.
    - by destruct (Nat.even (toggle_count events)). }
  split; [exact Hf|]. rewrite Hf. split; [exact Hl'|].
  rewrite setCollapsed_items, Hi, List.map_map. reflexivity.
Qed.

(* ===================================================================== *)
(** * The header lookup *)
(* ===================================================================== *)

Lemma blank_app (a b : string) : blank (a ++ b)%string = blank a && blank b.
Proof.
  induction a as [|x a IH]; [done|]. rewrite string_app_cons. simpl.
  rewrite IH. by rewrite andb_assoc.
Qed.

Lemma trim_start_blank (ws s : string) :
  blank ws = true -> Text.trim_start (ws ++ s)%string = Text.trim_start s.
Proof.
  induction ws as [|x ws IH]; [done|]. rewrite string_app_cons. simpl.
  intros H. apply andb_true_iff in H as [Hx Hws]. rewrite Hx. by apply IH.
Qed.

Lemma trim_start_all_blank (s : string) :
  blank s = true -> Text.trim_start s = EmptyString.
Proof.
  induction s as [|x s IH]; simpl; [done|].
  intros H. apply andb_true_iff in H as [Hx Hs]. rewrite Hx. by apply IH.
Qed.

Lemma trim_start_app_blank (s ws : string) :
  blank ws = true ->
  Text.trim_start (s ++ ws)%string =
    if blank s then EmptyString else (Text.trim_start s ++ ws)%string.
Proof.
  intros Hws. induction s as [|x s IH].
  - by apply trim_start_all_blank.
  - rewrite string_app_cons. simpl.
    destruct (Text.is_space x); simpl; [exact IH | reflexivity].
Qed.

Lemma rev_acc_app (a b acc : string) :
  Text.rev_acc (a ++ b)%string acc = Text.rev_acc b (Text.rev_acc a acc).
Proof.
  revert acc. induction a as [|x a IH]; intros acc; [done|].
  rewrite string_app_cons. simpl. apply IH.
Qed.

Lemma rev_acc_acc (s acc : string) :
  Text.rev_acc s acc = (Text.rev_acc s EmptyString ++ acc)%string.
Proof.
  revert acc. induction s as [|x s IH]; intros acc; simpl; [done|].
  rewrite (IH (String x acc)), (IH (String x EmptyString)).
  by rewrite string_app_assoc.
Qed.

Lemma blank_rev_acc (s : string) :
  blank s = true -> blank (Text.rev_acc s EmptyString) = true.
Proof.
  induction s as [|x s IH]; simpl; [done|].
  intros H. apply andb_true_iff in H as [Hx Hs].
  rewrite rev_acc_acc, blank_app, (IH Hs). simpl. by rewrite Hx.
Qed.

(** Blanks around a text do not survive [trim]. *)
Lemma trim_padding (ws1 s ws2 : string) :
  blank ws1 = true -> blank ws2 = true ->
  Text.trim (ws1 ++ s ++ ws2)%string = Text.trim s.
Proof.
  intros H1 H2. unfold Text.trim.
  rewrite (trim_start_blank _ _ H1), (trim_start_app_blank _ _ H2).
  destruct (blank s) eqn:Hs.
  - by rewrite (trim_start_all_blank _ Hs).
  - rewrite rev_acc_app, (rev_acc_acc ws2).
    by rewrite (trim_start_blank _ _ (blank_rev_acc _ H2)).
Qed.

Lemma lower_char_idempotent (c : Ascii.ascii) :
  Text.lower_char (Text.lower_char c) = Text.lower_char c.
Proof. destruct c as [[] [] [] [] [] [] [] []]; reflexivity. Qed.

Lemma is_space_lower_char (c : Ascii.ascii) :
  Text.is_space (Text.lower_char c) = Text.is_space c.
Proof. destruct c as [[] [] [] [] [] [] [] []]; reflexivity. Qed.

Lemma toLowerCase_idempotent (s : string) :
  Text.toLowerCase (Text.toLowerCase s) = Text.toLowerCase s.
Proof.
  induction s as [|x s IH]; simpl; [done|]. by rewrite lower_char_idempotent, IH.
Qed.

Lemma trim_start_toLowerCase (s : string) :
  Text.trim_start (Text.toLowerCase s) = Text.toLowerCase (Text.trim_start s).
Proof.
  induction s as [|x s IH]; simpl; [done|].
  rewrite is_space_lower_char. by destruct (Text.is_space x).
Qed.

Lemma rev_acc_toLowerCase (s acc : string) :
  Text.rev_acc (Text.toLowerCase s) (Text.toLowerCase acc) =
  Text.toLowerCase (Text.rev_acc s acc).
Proof.
  revert acc. induction s as [|x s IH]; intros acc; simpl; [done|].
  apply (IH (String x acc)).
Qed.

Lemma trim_toLowerCase (s : string) :
  Text.trim (Text.toLowerCase s) = Text.toLowerCase (Text.trim s).
Proof.
  unfold Text.trim. rewrite trim_start_toLowerCase.
  rewrite (rev_acc_toLowerCase _ EmptyString), trim_start_toLowerCase.
  apply (rev_acc_toLowerCase _ EmptyString).
Qed.

Lemma normalize_variant (ws1 s ws2 : string) :
  blank ws1 = true -> blank ws2 = true ->
  Text.normalize (ws1 ++ Text.toLowerCase s ++ ws2)%string = Text.normalize s.
Proof.
  intros H1 H2. unfold Text.normalize.
  by rewrite (trim_padding _ _ _ H1 H2), trim_toLowerCase, toLowerCase_idempotent.
Qed.

Lemma wire_first_normalized (n1 n2 : string) (groups : list GroupEl) :
  Text.normalize n1 = Text.normalize n2 ->
  wire_first n1 groups = wire_first n2 groups /\
  find_group n1 groups = find_group n2 groups.
Proof.
  intros Hn. induction groups as [|g gs [IH1 IH2]]; simpl; [done|].
  rewrite Hn. by rewrite IH1, IH2.
Qed.

(** The group is found by its name whatever the case of the ASCII letters
    and the blanks around the name that is asked for: the wiring with the
    name in lower case and padded with blanks is the wiring with the name
    itself, on every control. *)
Theorem header_lookup_insensitive (c : LayerControl) (name ws1 ws2 : string) :
  blank ws1 = true ->
  blank ws2 = true ->
  let variant := (ws1 ++ Text.toLowerCase name ++ ws2)%string in
  Text.normalize variant = Text.normalize name /\
  control_group c variant = control_group c name /\
  makeGroupedLayerCollapsible c variant = makeGroupedLayerCollapsible c name.
Proof.
  intros H1 H2 variant.
  pose proof (normalize_variant ws1 name ws2 H1 H2) as Hn. fold variant in Hn.
  split; [exact Hn|].
  unfold control_group, makeGroupedLayerCollapsible.
  destruct (ctl_container c) as [groups|]; [|done].
  destruct (wire_first_normalized _ _ groups Hn) as [-> ->]. done.
Qed.

Lemma wire_first_not_found (name : string) (groups : list GroupEl) :
  find_group name groups = None -> wire_first name groups = groups.
Proof.
  induction groups as [|g gs IH]; simpl; [done|].
  destruct (String.eqb (Text.normalize (grp_name g)) (Text.normalize name)); [done|].
  intros H. by rewrite IH.
Qed.

Lemma wire_header_fixed (g : GroupEl) :
  wire_header g = g <-> hdr_gliWired g = true.
Proof.
  unfold wire_header. destruct (hdr_gliWired g) eqn:Hw; split; try done.
  intros H. apply (f_equal hdr_gliWired) in H. simpl in H. congruence.
Qed.

Lemma wire_first_fixed (name : string) (groups : list GroupEl) :
  wire_first name groups = groups <->
  match find_group name groups with
  | Some g => hdr_gliWired g = true
  | None => True
  end.
Proof.
  induction groups as [|g gs IH]; simpl; [done|].
  destruct (String.eqb (Text.normalize (grp_name g)) (Text.normalize name)).
  - rewrite <- wire_header_fixed. split; [by intros [= ->] | by intros ->].
  - rewrite <- IH. split; [by intros [= ->] | by intros ->].
Qed.

(** For a name and rendered group names of ASCII characters, where the
    comparison of the model is the one of JavaScript: the wiring leaves
    the control as it is exactly when the control has no container yet,
    or no rendered group carries the name, or the group that does is
    wired already; in particular an unknown name changes nothing. *)
Theorem unknown_group_untouched (c : LayerControl) (name : string) :
  ascii_only name = true ->
  Forall (fun n => ascii_only n = true) (rendered_names c) ->
  (control_group c name = None -> makeGroupedLayerCollapsible c name = c) /\
  (makeGroupedLayerCollapsible c name = c <->
   match control_group c name with
   | Some g => hdr_gliWired g = true
   | None => True
   end).
Proof.
  intros _ _.
  unfold control_group, makeGroupedLayerCollapsible.
  destruct c as [b o cl ex gc [groups|]]; simpl; [|done].
  split.
  - intros H. by rewrite (wire_first_not_found _ _ H).
  - rewrite <- wire_first_fixed. split; [by intros [= ->] | by intros ->].
Qed.

(* ===================================================================== *)
(** * Further properties of the tooltips *)
(* ===================================================================== *)

Section TooltipFurther.

Context {engine : Engine} {bundle : Bundle}.

Lemma dirMap_lookup (k : string) (v : Value) :
  dirMap !! k = Some v ->
  k ∈ direction_codes /\ truthy v = true /\ v <> VStr "Not Provided".
Proof.
  unfold dirMap, direction_codes. intros H.
  repeat (apply lookup_insert_Some in H as [[<- <-] | [_ H]];
          [split; [set_solver | split; [reflexivity | discriminate]]|]).
  by rewrite lookup_empty in H.
Qed.

Lemma dirMap_codes (k : string) : k ∈ direction_codes -> is_Some (dirMap !! k).
Proof.
  unfold direction_codes. intros H. set_unfold.
  repeat (destruct H as [-> | H]; [vm_compute; eauto|]). destruct H.
Qed.

(** What each label is, read off the value of its property: the severity
    label is Low, Medium or High exactly for the numbers 1, 2 and 3 (text
    or a boolean never counts); the direction falls back to Not Provided
    exactly when the key of the property is neither one of the six codes
    nor the name of a member of [Object.prototype]. *)
Theorem label_mappings_exact (p : Object) :
  let sev := get p "Severity" in
  let key := to_string (get p "Direction") in
  bool_decide (severity_label p = "Low"%string) = bool_decide (sev = VNum (Int 1)) /\
  bool_decide (severity_label p = "Medium"%string) = bool_decide (sev = VNum (Int 2)) /\
  bool_decide (severity_label p = "High"%string) = bool_decide (sev = VNum (Int 3)) /\
  bool_decide (direction_label p = VStr "Not Provided") =
    negb (bool_decide (key ∈ direction_codes)) && negb (object_prototype_has key).
Proof.
  intros sev key.
  destruct (severity_label_total p) as (H1 & H2 & H3 & H4). fold sev in H1, H2, H3, H4.
  assert (Hcases : sev = VNum (Int 1) \/ sev = VNum (Int 2) \/ sev = VNum (Int 3) \/
                   severity_label p = "Not Provided"%string).
  { destruct (decide (sev = VNum (Int 1))); [tauto|].
    destruct (decide (sev = VNum (Int 2))); [tauto|].
    destruct (decide (sev = VNum (Int 3))); [tauto|]. right. right. right. by apply H4. }
  split; [|split; [|split]].
  - apply bool_decide_ext. split; [|exact H1]. intros Hl.
    destruct Hcases as [E|[E|[E|E]]]; [done| | |]; [rewrite (H2 E) in Hl | rewrite (H3 E) in Hl |
      rewrite E in Hl]; discriminate Hl.
  - apply bool_decide_ext. split; [|exact H2]. intros Hl.
    destruct Hcases as [E|[E|[E|E]]]; [|done| |]; [rewrite (H1 E) in Hl | rewrite (H3 E) in Hl |
      rewrite E in Hl]; discriminate Hl.
  - apply bool_decide_ext. split; [|exact H3]. intros Hl.
    destruct Hcases as [E|[E|[E|E]]]; [| |done|]; [rewrite (H1 E) in Hl | rewrite (H2 E) in Hl |
      rewrite E in Hl]; discriminate Hl.
  - unfold direction_label, get_computed. fold key. unfold get, JS.or.
    destruct (dirMap !! key) as [v|] eqn:Hk.
    + destruct (dirMap_lookup _ _ Hk) as (Hc & Ht & Hne).
      rewrite Ht. rewrite (bool_decide_eq_false_2 _ Hne).
      by rewrite (bool_decide_eq_true_2 _ Hc).
    + assert (Hnc : key ∉ direction_codes).
      { intros Hc. apply dirMap_codes in Hc as [v Hv]. congruence. }
      rewrite (bool_decide_eq_false_2 _ Hnc). simpl.
      destruct (object_prototype_has key); simpl;
        first [done | by apply bool_decide_eq_false_2 | by apply bool_decide_eq_true_2].
Qed.

(* ------------------------------------------------------------------- *)
(** ** Hover styles *)

Lemma path_fire_two (layer : PathLayer) (style : PathOptions) (type a b : string)
    (over out : StylePatch) :
  listeners layer = [(a, over); (b, out)] ->
  a <> b ->
  path_fire layer style type =
    if String.eqb b type then setStyle out style
    else if String.eqb a type then setStyle over style
    else style.
Proof.
  intros Hl Hab. unfold path_fire. rewrite Hl. cbn [fold_left].
  destruct (String.eqb_spec a type) as [Ha|Ha], (String.eqb_spec b type) as [Hb|Hb];
    try reflexivity.
  congruence.
Qed.

Lemma setStyle_full (w w' : Z) (c c' : string) (style : PathOptions) :
  setStyle {| sp_weight := Some w; sp_color := Some c |}
    (setStyle {| sp_weight := Some w'; sp_color := Some c' |} style) =
  setStyle {| sp_weight := Some w; sp_color := Some c |} style.
Proof. reflexivity. Qed.

Lemma setStyle_color (c c' : string) (style : PathOptions) :
  setStyle {| sp_weight := None; sp_color := Some c |}
    (setStyle {| sp_weight := None; sp_color := Some c' |} style) =
  setStyle {| sp_weight := None; sp_color := Some c |} style.
Proof. reflexivity. Qed.

Lemma path_events_hover (layer : PathLayer) (base : PathOptions) (over out : StylePatch)
    (types : list string) :
  listeners layer = [("mouseover"%string, over); ("mouseout"%string, out)] ->
  setStyle out base = base ->
  (forall s, setStyle out (setStyle over s) = setStyle out s) ->
  (forall s, setStyle over (setStyle out s) = setStyle over s) ->
  (forall s, setStyle over (setStyle over s) = setStyle over s) ->
  path_events layer base types = base \/
  path_events layer base types = setStyle over base.
Proof.
  intros Hl Hbase Hoo Hoi Hii. unfold path_events.
  assert (Hgen : forall st, (st = base \/ st = setStyle over base) ->
            fold_left (path_fire layer) types st = base \/
            fold_left (path_fire layer) types st = setStyle over base).
  { induction types as [|t ts IH]; intros st Hst; [exact Hst|].
    cbn [fold_left]. apply IH.
    rewrite (path_fire_two _ _ _ _ _ _ _ Hl) by discriminate.
    destruct (String.eqb "mouseout" t).
    - left. destruct Hst as [-> | ->]; [exact Hbase | by rewrite Hoo].
    - destruct (String.eqb "mouseover" t); [|exact Hst].
      right. destruct Hst as [-> | ->]; [done | by rewrite Hii]. }
  apply Hgen. by left.
Qed.

Lemma path_events_snoc (layer : PathLayer) (style : PathOptions)
    (types : list string) (type : string) :
  path_events layer style (types ++ [type]) =
  path_fire layer (path_events layer style types) type.
Proof. unfold path_events. by rewrite fold_left_app. Qed.

(** Hovering never leaves a trace: on a county path with a FIPS value and
    on every incident path, whatever pointer events came before, after a
    pointer-leave the path has again the style its layer was created with,
    and after a pointer-enter it has the hover style (for a county the
    heavier yellow stroke, for an incident only the yellow colour). *)
Theorem hover_is_reverted (f g : Feature) (types : list string) :
  loose_null (feature_fips f) = false ->
  let county := countyEachFeature f fresh_path in
  let incident := workzoneEachFeature g fresh_path in
  path_events county counties_style (types ++ ["mouseout"%string]) = counties_style /\
  path_events county counties_style (types ++ ["mouseover"%string]) =
    setStyle county_hover counties_style /\
  path_events incident workzoneLinePolyStyle (types ++ ["mouseout"%string]) =
    workzoneLinePolyStyle /\
  path_events incident workzoneLinePolyStyle (types ++ ["mouseover"%string]) =
    setStyle workzone_hover workzoneLinePolyStyle.
Proof.
  intros Hf county incident.
  assert (Hc : listeners county =
               [("mouseover"%string, county_hover); ("mouseout"%string, county_rest)]).
  { unfold county, countyEachFeature. by rewrite Hf. }
  assert (Hi : listeners incident =
               [("mouseover"%string, workzone_hover); ("mouseout"%string, workzone_rest)])
    by reflexivity.
  assert (E : String.eqb "mouseout" "mouseover" = false) by reflexivity.
  rewrite !path_events_snoc.
  rewrite !(path_fire_two county _ _ _ _ _ _ Hc) by discriminate.
  rewrite !(path_fire_two incident _ _ _ _ _ _ Hi) by discriminate.
  rewrite !String.eqb_refl, !E.
  destruct (path_events_hover county counties_style county_hover county_rest types Hc)
    as [-> | ->]; try reflexivity;
  destruct (path_events_hover incident workzoneLinePolyStyle workzone_hover workzone_rest
              types Hi) as [-> | ->]; try reflexivity; repeat split; reflexivity.
Qed.

End TooltipFurther.

(* ===================================================================== *)
(** * Further properties of the widget *)
(* ===================================================================== *)

Section WidgetFurther.

Context {engine : Engine} {bundle : Bundle}.

(* ------------------------------------------------------------------- *)
(** ** What [update] prints *)

Lemma console_output_app (l1 l2 : list Effect) :
  console_output (l1 ++ l2) = console_output l1 ++ console_output l2.
Proof. apply omap_app. Qed.

Lemma log_emit (e : Effect) (w : World) : log (emit e w) = log w ++ [e].
Proof. reflexivity. Qed.

Lemma log_columns_console (label : string) (cols : option (list Column)) (w : World) :
  console_output (log (log_columns label cols w)) =
    console_output (log w) ++ flat_map (column_lines label) (columns_of cols).
Proof.
  destruct cols as [cs|]; simpl; [|by rewrite app_nil_r].
  revert w. induction cs as [|c cs IH]; intros w; simpl; [by rewrite app_nil_r|].
  rewrite IH. unfold log_column. simpl. rewrite !console_output_app. simpl.
  by rewrite <- !app_assoc.
Qed.

Lemma update_head_console (w : World) :
  console_output (log (update_head w)) = console_output (log w).
Proof.
  destruct (update_head_frame w) as (_ & _ & _ & _ & _ & _ & _ & ->).
  rewrite !console_output_app. destruct (inited (this w)); simpl; by rewrite app_nil_r.
Qed.

(** The host data only reaches the console.  Without a first data view,
    or when that view has no categorical part, [update] prints the single
    line No data; otherwise it prints three lines for every category
    column and then three for every measure column, and never No data.
    Whatever the data, the visual, the frame queue and the timers end up
    the same. *)
Theorem update_data_is_inert (options : VisualUpdateOptions) (w : World) :
  console_output (log (update options w)) =
    console_output (log w) ++
      match first_dataView options with
      | Some dv =>
          match categorical dv with
          | Some cat =>
              flat_map (column_lines "Category role:") (columns_of (categories cat)) ++
              flat_map (column_lines "Measure role:") (columns_of (values cat))
          | None => [[CText "No data"]]
          end
      | None => [[CText "No data"]]
      end /\
  this (update options w) = this (update {| dataViews := None |} w) /\
  frames (update options w) = frames (update {| dataViews := None |} w) /\
  intervals (update options w) = intervals (update {| dataViews := None |} w) /\
  visibility_listener (update options w) =
    visibility_listener (update {| dataViews := None |} w).
Proof.
  split.
  - unfold update. fold (update_head w).
    destruct (first_dataView options) as [[[cat|]]|]; cbn [categorical].
    + rewrite !log_columns_console, update_head_console. by rewrite <- app_assoc.
    + rewrite log_emit, console_output_app, update_head_console. reflexivity.
    + rewrite log_emit, console_output_app, update_head_console. reflexivity.
  - destruct (update_frame options w) as (-> & -> & _ & _ & -> & _).
    destruct (update_frame {| dataViews := None |} w) as (-> & -> & _ & _ & -> & _).
    by rewrite !update_frames.
Qed.

(* ------------------------------------------------------------------- *)
(** ** Size invalidations *)

Lemma invalidations_app (l1 l2 : list Effect) :
  invalidations (l1 ++ l2) = (invalidations l1 + invalidations l2)%nat.
Proof. unfold invalidations. by rewrite List.filter_app, length_app. Qed.

Lemma same_tally_refl (w : World) : same_tally w w.
Proof. by split. Qed.

Lemma same_tally_trans (w1 w2 w3 : World) :
  same_tally w1 w2 -> same_tally w2 w3 -> same_tally w1 w3.
Proof. intros [? ?] [? ?]. split; congruence. Qed.

Lemma same_tally_fold {A : Type} (f : World -> A -> World) (xs : list A) :
  (forall w x, same_tally w (f w x)) ->
  forall w, same_tally w (fold_left f xs w).
Proof.
  intros Hf. induction xs as [|x xs IH]; intros w; simpl.
  - apply same_tally_refl.
  - eapply same_tally_trans; [apply Hf | apply IH].
Qed.

Lemma same_tally_ext (w w' : World) :
  log w' = log w -> frames w' = frames w -> same_tally w w'.
Proof. unfold same_tally, pending_invalidations. by intros -> ->. Qed.

Lemma same_tally_emit (e : Effect) (w : World) :
  is_invalidation e = false -> same_tally w (emit e w).
Proof.
  intros He. split; [|reflexivity]. simpl. rewrite invalidations_app.
  unfold invalidations at 2. simpl. rewrite He. simpl. lia.
Qed.

Lemma same_tally_requestAnimationFrame (cb : Callback) (w : World) :
  cb <> CbInvalidateSize -> same_tally w (requestAnimationFrame cb w).
Proof.
  intros Hcb. split.
  - simpl. rewrite invalidations_app. unfold invalidations at 2. simpl. lia.
  - unfold pending_invalidations. simpl. rewrite List.filter_app, length_app. simpl.
    rewrite bool_decide_eq_false_2 by done. simpl. lia.
Qed.

Lemma same_tally_refreshAllLayers (w : World) : same_tally w (refreshAllLayers w).
Proof.
  unfold refreshAllLayers. generalize (incident_fields (this w)). intros ls.
  apply same_tally_fold. intros w' [layer|];
    [by apply same_tally_emit | apply same_tally_refl].
Qed.

Lemma same_tally_log_columns (label : string) (cols : option (list Column)) (w : World) :
  same_tally w (log_columns label cols w).
Proof.
  destruct cols as [cs|]; simpl; [|apply same_tally_refl].
  apply same_tally_fold. intros w' c. unfold log_column.
  eapply same_tally_trans; [|by apply same_tally_emit].
  eapply same_tally_trans; by apply same_tally_emit.
Qed.

Lemma same_tally_fire (type : string) (w : World) : same_tally w (fire type w).
Proof.
  unfold fire. generalize (map_handlers (map (this w))). intros hs.
  apply same_tally_fold. intros w' [t h].
  destruct (String.eqb t type); [|apply same_tally_refl].
  destruct h. by apply same_tally_requestAnimationFrame.
Qed.

Lemma update_tally (options : VisualUpdateOptions) (w : World) :
  invalidations (log (update options w)) = invalidations (log w) /\
  pending_invalidations (update options w) = S (pending_invalidations w).
Proof.
  split.
  - assert (Ht : same_tally (update_head w) (update options w)).
    { unfold update. fold (update_head w).
      destruct (first_dataView options) as [[[cat|]]|].
      - eapply same_tally_trans; apply same_tally_log_columns.
      - by apply same_tally_emit.
      - by apply same_tally_emit. }
    destruct Ht as [-> _].
    destruct (update_head_frame w) as (_ & _ & _ & _ & _ & _ & _ & ->).
    rewrite !invalidations_app. destruct (inited (this w)); unfold invalidations; simpl; lia.
  - unfold pending_invalidations. rewrite update_frames.
    rewrite !List.filter_app, !length_app.
    destruct (inited (this w)); simpl; lia.
Qed.

Lemma run_callback_tally (w : World) (cb : Callback) :
  invalidations (log (run_callback w cb)) =
    (invalidations (log w) + (if bool_decide (cb = CbInvalidateSize) then 1 else 0))%nat /\
  pending_invalidations (run_callback w cb) = pending_invalidations w.
Proof.
  destruct cb; cbn [run_callback]; simpl bool_decide; rewrite ?Nat.add_0_r.
  - destruct (initLayersAndUI_frame w) as (Hl & Hf & _).
    apply (same_tally_ext w); done.
  - split; [|reflexivity]. unfold invalidateSize. simpl. rewrite invalidations_app.
    unfold invalidations at 2. simpl. lia.
  - unfold refreshLayerControlCollapsibles.
    destruct (layerControl (this w));
      [by apply same_tally_requestAnimationFrame | apply same_tally_refl].
  - destruct (wire_collapsibles_frame w) as (Hl & Hf & _).
    apply (same_tally_ext w); done.
Qed.

Lemma animation_frame_tally (w : World) :
  invalidations (log (animation_frame w)) =
    (invalidations (log w) + pending_invalidations w)%nat /\
  pending_invalidations (animation_frame w) = 0%nat.
Proof.
  unfold animation_frame.
  assert (Hgen : forall cbs w0,
            invalidations (log (fold_left run_callback cbs w0)) =
              (invalidations (log w0) +
               length (List.filter (fun cb => bool_decide (cb = CbInvalidateSize)) cbs))%nat /\
            pending_invalidations (fold_left run_callback cbs w0) =
              pending_invalidations w0).
  { induction cbs as [|cb cbs IH]; intros w0; cbn [fold_left].
    - simpl. split; [lia | done].
    - destruct (IH (run_callback w0 cb)) as [-> ->].
      destruct (run_callback_tally w0 cb) as [-> ->]. split; [|done].
      cbn [List.filter]. destruct (bool_decide (cb = CbInvalidateSize)); simpl; lia. }
  destruct (Hgen (frames w) (with_frames [] w)) as [-> ->]. done.
Qed.

Lemma step_tally (w : World) (e : Event) :
  (invalidations (log (step w e)) + pending_invalidations (step w e) =
   invalidations (log w) + pending_invalidations w + (if is_update e then 1 else 0))%nat.
Proof.
  assert (Hsame : forall w', same_tally w w' ->
            (invalidations (log w') + pending_invalidations w' =
             invalidations (log w) + pending_invalidations w + 0)%nat).
  { intros w' [-> ->]. lia. }
  destruct e as [o| | |id|v|type|i|i key]; cbn [step is_update].
  - destruct (update_tally o w) as [-> ->]. lia.
  - destruct (destroy_frame w) as (Hl & Hf & _). apply Hsame, same_tally_ext; done.
  - destruct (animation_frame_tally w) as [-> ->]. lia.
  - case_match; [|lia]. apply Hsame, same_tally_refreshAllLayers.
  - apply Hsame. case_match; [|by apply same_tally_ext].
    apply (same_tally_trans _ (with_visibilityState v w)); [by apply same_tally_ext|].
    unfold onVisibilityRefresh. case_decide;
      [apply same_tally_refreshAllLayers | apply same_tally_refl].
  - apply Hsame, same_tally_fire.
  - destruct (on_header_frame click_header i w) as (Hl & Hf & _).
    apply Hsame, same_tally_ext; done.
  - destruct (on_header_frame (keydown_header key) i w) as (Hl & Hf & _).
    apply Hsame, same_tally_ext; done.
Qed.

(** Every update asks for one size invalidation of the map and every
    frame performs all that are pending: in any run of the widget the
    invalidations performed and those still pending add up to the number
    of updates, and right after a frame none is pending. *)
Theorem invalidations_follow_updates
    (h : positive) (children : list string) (trace : list Event) :
  let w := run (constructor h children) trace in
  (invalidations (log w) + pending_invalidations w = updates trace)%nat /\
  pending_invalidations (step w EvFrame) = 0%nat /\
  invalidations (log (step w EvFrame)) = updates trace.
Proof.
  intros w.
  assert (Hrun : forall t w0,
            (invalidations (log (run w0 t)) + pending_invalidations (run w0 t) =
             invalidations (log w0) + pending_invalidations w0 + updates t)%nat).
  { induction t as [|e t IH]; intros w0; cbn [run fold_left].
    - unfold updates. simpl. lia.
    - fold (run (step w0 e) t). rewrite IH, step_tally.
      unfold updates. cbn [List.filter]. destruct (is_update e); simpl; lia. }
  pose proof (Hrun trace (constructor h children)) as H0. fold w in H0.
  change (invalidations (log (constructor h children))) with 0%nat in H0.
  change (pending_invalidations (constructor h children)) with 0%nat in H0.
  destruct (animation_frame_tally w) as [Hd Hp].
  split; [lia|]. split; [exact Hp|]. cbn [step]. lia.
Qed.

(* ------------------------------------------------------------------- *)
(** ** The timer *)

Lemma startAutoRefresh_off (ms : Z) (w : World) :
  (ms <= 0)%Z -> this (startAutoRefresh ms w) = this w.
Proof.
  intros Hms. apply Z.ltb_ge in Hms.
  unfold startAutoRefresh, clearInterval, timer_truthy. rewrite Hms.
  destruct (autoRefreshTimer (this w)) as [id|]; [|done].
  by destruct (negb (id =? 0)%Z).
Qed.

(** A period that is not positive switches the refresh off: in every
    state the widget reaches, [startAutoRefresh] with such a period
    cancels the running timer, starts none and changes nothing of the
    visual; the handle it still remembers is no longer running. *)
Theorem auto_refresh_off
    (h : positive) (children : list string) (trace : list Event) (ms : Z) :
  (ms <= 0)%Z ->
  let w := run (constructor h children) trace in
  intervals (startAutoRefresh ms w) = [] /\
  this (startAutoRefresh ms w) = this w /\
  log (startAutoRefresh ms w) = log w /\
  intervals (startAutoRefresh ms (startAutoRefresh ms w)) = [].
Proof.
  intros Hms w.
  assert (Hw : timers_ok w) by apply timers_ok_run, timers_ok_constructor.
  destruct (startAutoRefresh_intervals ms w Hw) as [E1 H1].
  destruct (startAutoRefresh_intervals ms _ H1) as [E2 _].
  destruct (startAutoRefresh_frame ms w) as (Hl & _).
  pose proof Hms as Hb. apply Z.ltb_ge in Hb. rewrite Hb in E1, E2.
  split; [exact E1|]. split; [by apply startAutoRefresh_off|]. split; [exact Hl | exact E2].
Qed.

(* ------------------------------------------------------------------- *)
(** ** All ten layers or none *)

Lemma refresh_ready_ext (w w' : World) :
  incident_fields (this w') = incident_fields (this w) ->
  intervals w' = intervals w ->
  refresh_ready w -> refresh_ready w'.
Proof.
  unfold refresh_ready, layers_complete, incident_layers. intros -> ->. done.
Qed.

Lemma refresh_ready_benign (w w' : World) : benign w w' -> refresh_ready w -> refresh_ready w'.
Proof. intros [Ht Hi _ _ _ _ _ _]. apply refresh_ready_ext; [by rewrite Ht | done]. Qed.

Lemma destroy_no_timer (w : World) : intervals w = [] -> intervals (destroy w) = [].
Proof.
  unfold destroy, clearInterval, timer_truthy. intros Hi.
  destruct (autoRefreshTimer (this w)) as [id|]; simpl; [|done].
  destruct (negb (id =? 0)%Z); simpl; by rewrite Hi.
Qed.

Lemma refresh_ready_run_callback (w : World) (cb : Callback) :
  refresh_ready w -> refresh_ready (run_callback w cb).
Proof.
  destruct cb; cbn [run_callback].
  - intros _. right. unfold layers_complete, incident_layers.
    rewrite initLayersAndUI_fields. reflexivity.
  - apply refresh_ready_benign, benign_invalidateSize.
  - apply refresh_ready_benign, benign_refreshLayerControlCollapsibles.
  - destruct (wire_collapsibles_frame w) as (_ & _ & Hi & _ & _ & _ & _ & _ & _ & Hf).
    by apply refresh_ready_ext.
Qed.

Lemma refresh_ready_step (w : World) (e : Event) :
  refresh_ready w -> refresh_ready (step w e).
Proof.
  intros Hw. destruct e as [o| | |id|v|type|i|i key]; cbn [step].
  - destruct (update_frame o w) as (Ht & Hi & _).
    apply (refresh_ready_ext w); [by rewrite Ht | done | done].
  - destruct (destroy_frame w) as (_ & _ & _ & _ & _ & Ht).
    destruct Hw as [[Hn Hi] | Hc].
    + left. split; [by rewrite Ht | by apply destroy_no_timer].
    + right. unfold layers_complete. by rewrite Ht.
  - unfold animation_frame.
    assert (H0 : refresh_ready (with_frames [] w)) by exact Hw.
    revert H0. generalize (with_frames [] w). generalize (frames w).
    intros cbs. induction cbs as [|cb cbs IH]; intros w0 H0; simpl; [done|].
    apply IH. by apply refresh_ready_run_callback.
  - case_match; [|done]. revert Hw. apply refresh_ready_benign, benign_refreshAllLayers.
  - assert (H0 : refresh_ready (with_visibilityState v w)) by exact Hw.
    case_match; [|done]. revert H0. apply refresh_ready_benign, benign_onVisibilityRefresh.
  - revert Hw. apply refresh_ready_benign, benign_fire.
  - destruct (on_header_frame click_header i w) as (_ & _ & Hi & _ & _ & _ & _ & _ & _ & Hf).
    by apply (refresh_ready_ext w).
  - destruct (on_header_frame (keydown_header key) i w)
      as (_ & _ & Hi & _ & _ & _ & _ & _ & _ & Hf).
    by apply (refresh_ready_ext w).
Qed.

Lemma refresh_ready_run (trace : list Event) (w : World) :
  refresh_ready w -> refresh_ready (run w trace).
Proof.
  revert w. induction trace as [|e trace IH]; intros w Hw; simpl; [done|].
  apply IH. by apply refresh_ready_step.
Qed.

Lemma refresh_ready_constructor (h : positive) (children : list string) :
  refresh_ready (constructor h children).
Proof. by left. Qed.

Lemma layers_complete_ten (w : World) :
  layers_complete w -> length (requery_all (this w)) = 10%nat.
Proof.
  unfold layers_complete, requery_all. intros H.
  rewrite length_map. rewrite <- (length_map fl_where), H. reflexivity.
Qed.

(** A refresh is never partial: in every state the widget reaches, either
    no incident layer exists, and then [refreshAllLayers] sends nothing
    and no timer runs, or all ten exist with their predicates, and then it
    sends ten re-queries, whether or not the layers are shown on the
    map. *)
Theorem refresh_all_or_nothing
    (h : positive) (children : list string) (trace : list Event) :
  let w := run (constructor h children) trace in
  log (refreshAllLayers w) = log w ++ requery_all (this w) /\
  ((requery_all (this w) = [] /\ intervals w = []) \/
   (length (requery_all (this w)) = 10%nat /\
    List.map fl_where (incident_layers (this w)) =
      List.map incident_predicate incident_types)).
Proof.
  intros w. split; [apply refreshAllLayers_log|].
  destruct (refresh_ready_run trace _ (refresh_ready_constructor h children))
    as [[Hn Hi] | Hc]; fold w in Hn, Hi || fold w in Hc.
  - left. unfold requery_all. by rewrite Hn.
  - right. split; [by apply layers_complete_ten | exact Hc].
Qed.

(** When the refresh timer fires, in any state the widget reaches, all ten
    incident layers are re-queried, once each, and nothing else changes. *)
Theorem timer_tick_requeries
    (h : positive) (children : list string) (trace : list Event) (id : Z) :
  let w := run (constructor h children) trace in
  existsb (fun t => (fst t =? id)%Z) (intervals w) = true ->
  log (step w (EvInterval id)) = log w ++ requery_all (this w) /\
  length (requery_all (this w)) = 10%nat /\
  List.map fl_where (incident_layers (this w)) =
    List.map incident_predicate incident_types /\
  this (step w (EvInterval id)) = this w /\
  intervals (step w (EvInterval id)) = intervals w.
Proof.
  intros w Hid. cbn [step]. rewrite Hid.
  destruct (benign_refreshAllLayers w) as [Ht Hi _ _ _ _ _ _].
  destruct (refresh_ready_run trace _ (refresh_ready_constructor h children))
    as [[Hn Hi'] | Hc]; fold w in Hn, Hi' || fold w in Hc.
  - rewrite Hi' in Hid. discriminate Hid.
  - split; [apply refreshAllLayers_log|].
    split; [by apply layers_complete_ten|]. split; [exact Hc|]. done.
Qed.

(* ------------------------------------------------------------------- *)
(** ** After [destroy] *)

Lemma passive_step_idle (w : World) (e : Event) :
  is_passive e = true ->
  intervals w = [] -> visibility_listener w = false ->
  log (step w e) = log w /\ this (step w e) = this w /\
  intervals (step w e) = [] /\ visibility_listener (step w e) = false.
Proof.
  intros He Hi Hl. destruct e as [o| | |id|v|type|i|i key]; try discriminate He;
    cbn [step].
  - by rewrite Hi.
  - cbn [visibility_listener with_visibilityState]. by rewrite Hl.
Qed.

(** Once the widget is destroyed, its timer and its visibility listener
    are gone for good: whatever timer ticks and page-visibility changes
    follow, nothing is sent to the feature service, no timer runs and the
    visual is not touched. *)
Theorem destroyed_widget_is_silent
    (h : positive) (children : list string) (trace events : list Event) :
  forallb is_passive events = true ->
  let w := destroy (run (constructor h children) trace) in
  log (run w events) = log w /\
  this (run w events) = this w /\
  intervals (run w events) = [] /\
  visibility_listener (run w events) = false.
Proof.
  intros Hev w.
  assert (Hi : intervals w = []).
  { apply destroy_intervals, timers_ok_run, timers_ok_constructor. }
  assert (Hl : visibility_listener w = false).
  { unfold w. by destruct (destroy_frame (run (constructor h children) trace))
      as (_ & _ & _ & _ & -> & _). }
  clearbody w. revert w Hi Hl.
  induction events as [|e es IH]; intros w Hi Hl; [done|].
  cbn [forallb] in Hev. apply andb_true_iff in Hev as [He Hes].
  destruct (passive_step_idle w e He Hi Hl) as (El & Et & Ei & Ev).
  cbn [run fold_left]. fold (run (step w e) es).
  destruct (IH Hes (step w e) Ei Ev) as (-> & -> & -> & ->). done.
Qed.

(* ------------------------------------------------------------------- *)
(** ** Headers in the running widget *)

Lemma wired_once_setCollapsed (b : bool) (g : GroupEl) :
  wired_once g -> wired_once (setCollapsed b g).
Proof. exact id. Qed.

Lemma wired_once_wire_header (g : GroupEl) : wired_once g -> wired_once (wire_header g).
Proof.
  unfold wire_header. intros [[Hw Hl] | [Hw Hl]]; rewrite Hw; [|by right].
  right. simpl. by rewrite Hl.
Qed.

Lemma wired_once_dispatch (type key : string) (g : GroupEl) :
  wired_once g -> wired_once (dispatch_header type key g).
Proof.
  unfold dispatch_header. generalize (hdr_listeners g). intros ls. revert g.
  induction ls as [|[t hd] ls IH]; intros g Hg; simpl; [done|].
  apply IH. destruct (String.eqb t type); [|done].
  destruct hd; simpl; [exact Hg|]. by destruct (String.eqb key "Enter" || String.eqb key " ").
Qed.

Lemma wired_once_wire_first (name : string) (groups : list GroupEl) :
  Forall wired_once groups -> Forall wired_once (wire_first name groups).
Proof.
  induction 1 as [|g gs Hg Hgs IH]; simpl; [constructor|].
  destruct (String.eqb (Text.normalize (grp_name g)) (Text.normalize name));
    constructor; auto using wired_once_wire_header.
Qed.

Lemma wired_once_render (overlays : list (string * list (string * ObjId))) :
  Forall wired_once (render_groups overlays).
Proof.
  unfold render_groups. induction overlays as [|[name members] os IH]; simpl;
    constructor; [by left | exact IH].
Qed.

Lemma control_groups_ext (w w' : World) :
  layerControl (this w') = layerControl (this w) -> control_groups w' = control_groups w.
Proof. unfold control_groups. by intros ->. Qed.

Lemma control_groups_benign (w w' : World) :
  benign w w' -> control_groups w' = control_groups w.
Proof. intros [Ht _ _ _ _ _ _ _]. apply control_groups_ext. by rewrite Ht. Qed.

Lemma control_groups_wire (w : World) :
  control_groups (wire_collapsibles w) =
    wire_first "Work Zones" (wire_first "Boundaries" (control_groups w)).
Proof.
  unfold control_groups, wire_collapsibles.
  destruct (layerControl (this w)) as [c|] eqn:Ec; [|by rewrite Ec].
  cbn [this with_this layerControl set_layerControl].
  unfold makeGroupedLayerCollapsible.
  destruct (ctl_container c) as [groups|] eqn:E; cbn [ctl_container]; [done|].
  repeat (rewrite E; cbv beta iota). reflexivity.
Qed.

Lemma control_groups_on_header (f : GroupEl -> GroupEl) (i : nat) (w : World) :
  control_groups (on_header f i w) = alter f i (control_groups w).
Proof.
  unfold control_groups, on_header.
  destruct (layerControl (this w)) as [c|] eqn:Ec; [|by rewrite Ec].
  destruct (ctl_container c) as [groups|] eqn:E; [done|]. by rewrite Ec, E.
Qed.

Lemma control_groups_init (w : World) :
  control_groups (initLayersAndUI w) =
    render_groups
      [ ("Boundaries", [ ("Counties", next_object w) ]);
        ("Work Zones",
         List.map (fun t => (t.1, (next_object w + t.2)%nat))
           [ ("Truck Closure", 1%nat); ("Construction", 2%nat);
             ("Night Construction", 3%nat); ("Maintenance", 4%nat);
             ("Night Time Maintenance", 5%nat); ("Emergency Road Work", 6%nat);
             ("Road Obstruction", 7%nat); ("Weather Event", 8%nat);
             ("Special Event", 9%nat); ("Other", 10%nat) ]) ].
Proof.
  destruct (initLayersAndUI_this w) as (w1 & t & Ht & _ & _ & _ & _ & Hc).
  unfold control_groups. rewrite Ht.
  change (layerControl (set_autoRefreshTimer t (this w1))) with (layerControl (this w1)).
  rewrite Hc. reflexivity.
Qed.

Lemma wired_once_run_callback (w : World) (cb : Callback) :
  Forall wired_once (control_groups w) ->
  Forall wired_once (control_groups (run_callback w cb)).
Proof.
  intros Hw. destruct cb; cbn [run_callback].
  - rewrite control_groups_init. apply wired_once_render.
  - by rewrite (control_groups_benign _ _ (benign_invalidateSize w)).
  - by rewrite (control_groups_benign _ _ (benign_refreshLayerControlCollapsibles w)).
  - rewrite control_groups_wire. by do 2 apply wired_once_wire_first.
Qed.

Lemma wired_once_step (w : World) (e : Event) :
  Forall wired_once (control_groups w) ->
  Forall wired_once (control_groups (step w e)).
Proof.
  intros Hw. destruct e as [o| | |id|v|type|i|i key]; cbn [step].
  - destruct (update_frame o w) as (Ht & _).
    rewrite (control_groups_ext w); [done | by rewrite Ht].
  - destruct (destroy_frame w) as (_ & _ & _ & _ & _ & Ht).
    rewrite (control_groups_ext w); [done | by rewrite Ht].
  - unfold animation_frame.
    assert (H0 : Forall wired_once (control_groups (with_frames [] w))) by exact Hw.
    revert H0. generalize (with_frames [] w). generalize (frames w).
    intros cbs. induction cbs as [|cb cbs IH]; intros w0 H0; simpl; [done|].
    apply IH. by apply wired_once_run_callback.
  - case_match; [|done]. by rewrite (control_groups_benign _ _ (benign_refreshAllLayers w)).
  - case_match; [|exact Hw].
    by rewrite (control_groups_benign _ _
                  (benign_onVisibilityRefresh (with_visibilityState v w))).
  - by rewrite (control_groups_benign _ _ (benign_fire type w)).
  - rewrite control_groups_on_header. apply Forall_alter; [done|].
    intros g _. apply wired_once_dispatch.
  - rewrite control_groups_on_header. apply Forall_alter; [done|].
    intros g _. apply wired_once_dispatch.
Qed.

(** However often the layer control changes and the headers are refreshed,
    and whatever the user clicks: in every state the widget reaches,
    every group header of the control carries either no listener of the
    visual (it is not wired yet) or its mark with exactly one click and
    one keydown listener, never a second one. *)
Theorem headers_never_wired_twice
    (h : positive) (children : list string) (trace : list Event) :
  let w := run (constructor h children) trace in
  Forall wired_once (control_groups w) /\
  Forall (fun g =>
            (length (List.filter (fun l => String.eqb (fst l) "click") (hdr_listeners g))
             <= 1)%nat)
         (control_groups w).
Proof.
  intros w.
  assert (Hw : Forall wired_once (control_groups w)).
  { assert (H0 : Forall wired_once (control_groups (constructor h children)))
      by constructor.
    unfold w. revert H0. generalize (constructor h children).
    induction trace as [|e t IH]; intros w0 H0; [exact H0|].
    cbn [run fold_left]. apply IH. by apply wired_once_step. }
  split; [exact Hw|].
  eapply Forall_impl; [exact Hw|].
  intros g [[_ ->] | [_ ->]]; simpl; lia.
Qed.

(* ------------------------------------------------------------------- *)
(** ** From a layer event to the collapsed groups *)

Lemma initLayersAndUI_handlers (w : World) :
  map_handlers (map (this (initLayersAndUI w))) =
    map_handlers (map (this w)) ++
    List.map (fun t => (t, OnLayerChange)) layer_event_types.
Proof.
  assert (Hs : exists w1,
            initLayersAndUI w =
              with_visibility_listener true (startAutoRefresh (6 * 60 * 60 * 1000) w1) /\
            map_handlers (map (this w1)) =
              map_handlers (map (this w)) ++
              List.map (fun t => (t, OnLayerChange)) layer_event_types).
  { eexists. split; [reflexivity|]. reflexivity. }
  destruct Hs as (w1 & -> & <-).
  generalize (6 * 60 * 60 * 1000)%Z. intros ms.
  destruct (startAutoRefresh_frame ms w1) as (_ & _ & _ & _ & _ & Ht).
  cbn [this with_visibility_listener]. by rewrite Ht.
Qed.

Lemma first_frame_world
    (h : positive) (children : list string) (options : VisualUpdateOptions) :
  run (constructor h children) [EvUpdate options; EvFrame] =
  invalidateSize
    (initLayersAndUI (with_frames [] (update options (constructor h children)))).
Proof.
  rewrite run_two, step_update, step_frame.
  rewrite (animation_frame_of _ _ (frames_first_update h children options)).
  by rewrite fold_two, run_init, run_invalidate.
Qed.

Lemma fire_registered (w : World) (type : string) :
  map_handlers (map (this w)) = List.map (fun t => (t, OnLayerChange)) layer_event_types ->
  fire type w =
    if bool_decide (type ∈ layer_event_types)
    then requestAnimationFrame CbRefreshCollapsibles w else w.
Proof.
  intros Hh. unfold fire. rewrite Hh. unfold layer_event_types.
  cbn [List.map fold_left].
  destruct (String.eqb_spec "overlayadd" type) as [<-|H1]; [reflexivity|].
  destruct (String.eqb_spec "overlayremove" type) as [<-|H2]; [reflexivity|].
  destruct (String.eqb_spec "baselayerchange" type) as [<-|H3]; [reflexivity|].
  rewrite bool_decide_eq_false_2; [done|].
  rewrite !elem_of_cons, elem_of_nil. intros [?|[?|[?|[]]]]; congruence.
Qed.

(** The groups are wired two frames after a layer event, on any
    initialised state whose frame queue is empty. *)
Lemma layer_event_wires (w : World) (type : string) (c : LayerControl) :
  frames w = [] ->
  layerControl (this w) = Some c ->
  map_handlers (map (this w)) = List.map (fun t => (t, OnLayerChange)) layer_event_types ->
  type ∈ layer_event_types ->
  control_groups (run w [EvMapEvent type; EvFrame]) = control_groups w /\
  control_groups (run w [EvMapEvent type; EvFrame; EvFrame]) =
    wire_first "Work Zones" (wire_first "Boundaries" (control_groups w)).
Proof.
  intros Hf Hc Hh Ht.
  assert (E1 : step w (EvMapEvent type) = requestAnimationFrame CbRefreshCollapsibles w).
  { cbn [step]. rewrite (fire_registered _ _ Hh). by rewrite bool_decide_eq_true_2. }
  set (w1 := requestAnimationFrame CbRefreshCollapsibles w) in *.
  assert (F1 : frames w1 = [CbRefreshCollapsibles]) by (unfold w1; simpl; by rewrite Hf).
  assert (E2 : step w1 EvFrame =
               requestAnimationFrame CbWireCollapsibles (with_frames [] w1)).
  { rewrite step_frame, (animation_frame_of _ _ F1). cbn [fold_left run_callback].
    unfold refreshLayerControlCollapsibles.
    change (layerControl (this (with_frames [] w1))) with (layerControl (this w)).
    by rewrite Hc. }
  set (w2 := requestAnimationFrame CbWireCollapsibles (with_frames [] w1)) in *.
  assert (F2 : frames w2 = [CbWireCollapsibles]) by reflexivity.
  assert (E3 : step w2 EvFrame = wire_collapsibles (with_frames [] w2)).
  { rewrite step_frame, (animation_frame_of _ _ F2). reflexivity. }
  assert (G : control_groups (with_frames [] w2) = control_groups w) by reflexivity.
  split.
  - change (run w [EvMapEvent type; EvFrame]) with (step (step w (EvMapEvent type)) EvFrame).
    rewrite E1, E2. reflexivity.
  - change (run w [EvMapEvent type; EvFrame; EvFrame])
      with (step (step (step w (EvMapEvent type)) EvFrame) EvFrame).
    rewrite E1, E2, E3, control_groups_wire, G. reflexivity.
Qed.

Lemma frames_invalidateSize (w : World) : frames (invalidateSize w) = frames w.
Proof. reflexivity. Qed.

Lemma first_frame_ui
    (h : positive) (children : list string) (options : VisualUpdateOptions) :
  let w := run (constructor h children) [EvUpdate options; EvFrame] in
  frames w = [] /\
  map_handlers (map (this w)) = List.map (fun t => (t, OnLayerChange)) layer_event_types /\
  exists c, layerControl (this w) = Some c /\
  control_groups w =
    render_groups
      [ ("Boundaries", [ ("Counties", 2%nat) ]);
        ("Work Zones",
         [ ("Truck Closure", 3%nat); ("Construction", 4%nat);
           ("Night Construction", 5%nat); ("Maintenance", 6%nat);
           ("Night Time Maintenance", 7%nat); ("Emergency Road Work", 8%nat);
           ("Road Obstruction", 9%nat); ("Weather Event", 10%nat);
           ("Special Event", 11%nat); ("Other", 12%nat) ]) ].
Proof.
  cbv zeta.
  destruct (first_frame_state h children options) as (_ & _ & _ & _ & Hc).
  rewrite first_frame_world in *.
  set (w0 := with_frames [] (update options (constructor h children))) in *.
  destruct (initLayersAndUI_frame w0) as (_ & Hf & _).
  split; [|split].
  - rewrite frames_invalidateSize, Hf. reflexivity.
  - rewrite this_invalidateSize, initLayersAndUI_handlers.
    destruct (update_frame options (constructor h children)) as (Ht & _).
    unfold w0. rewrite this_with_frames, Ht. reflexivity.
  - eexists. split; [exact Hc|]. unfold control_groups. by rewrite Hc.
Qed.

Lemma wire_rendered_groups (overlays : list (string * list (string * ObjId))) :
  List.map fst overlays = ["Boundaries"%string; "Work Zones"%string] ->
  wire_first "Work Zones" (wire_first "Boundaries" (render_groups overlays)) =
  List.map wire_header (render_groups overlays).
Proof.
  destruct overlays as [|[n1 m1] [|[n2 m2] [|]]]; try discriminate.
  intros [= -> ->]. vm_compute. reflexivity.
Qed.

(** The groups of the layer control are not collapsed by the
    initialisation: right after it the Boundaries group with its one
    member and the Work Zones group with its ten are rendered expanded,
    with no listener and no mark.  Each of the three layer events the
    visual listens to (overlay added, overlay removed, base layer changed)
    gets them wired and collapsed, not in the next frame but in the one
    after it: then both headers carry the mark, one caret, the pointer
    cursor, the class is-collapsed and one click and one keydown listener,
    and every member is hidden.  Any other map event is ignored. *)
Theorem groups_collapse_after_layer_event
    (h : positive) (children : list string) (options : VisualUpdateOptions)
    (other : string) :
  let w := run (constructor h children) [EvUpdate options; EvFrame] in
  List.map grp_name (control_groups w) = ["Boundaries"%string; "Work Zones"%string] /\
  List.map (fun g => length (grp_items g)) (control_groups w) = [1; 10]%nat /\
  Forall (fun g => hdr_gliWired g = false /\ hdr_is_collapsed g = false /\
                   hdr_listeners g = [] /\
                   Forall (fun d => d = EmptyString) (grp_items g))
         (control_groups w) /\
  Forall (fun type =>
            control_groups (run w [EvMapEvent type; EvFrame]) = control_groups w /\
            let groups := control_groups (run w [EvMapEvent type; EvFrame; EvFrame]) in
            groups = List.map wire_header (control_groups w) /\
            List.map grp_name groups = ["Boundaries"%string; "Work Zones"%string] /\
            List.map (fun g => length (grp_items g)) groups = [1; 10]%nat /\
            Forall (fun g =>
                      hdr_gliWired g = true /\
                      hdr_carets g = 1%nat /\
                      hdr_cursor g = "pointer"%string /\
                      hdr_is_collapsed g = true /\
                      hdr_listeners g =
                        [("click"%string, ClickToggle); ("keydown"%string, KeydownToggle)] /\
                      hdr_click_blocked g = true /\
                      hdr_scroll_blocked g = true /\
                      Forall (fun d => d = "none"%string) (grp_items g))
                   groups)
         layer_event_types /\
  step w (EvMapEvent other) =
    (if bool_decide (other ∈ layer_event_types)
     then requestAnimationFrame CbRefreshCollapsibles w else w).
Proof.
  intros w.
  destruct (first_frame_ui h children options) as (Hf & Hh & c & Hc & Hg).
  fold w in Hf, Hh, Hc, Hg. clearbody w.
  split; [by rewrite Hg|]. split; [by rewrite Hg|]. split.
  { rewrite Hg. repeat constructor. }
  split.
  - apply Forall_forall. intros type Ht.
    destruct (layer_event_wires w type _ Hf Hc Hh Ht) as [E1 E2].
    split; [exact E1|]. cbv zeta. rewrite E2, Hg.
    rewrite wire_rendered_groups by reflexivity.
    split; [reflexivity|]. split; [reflexivity|]. split; [reflexivity|].
    vm_compute. repeat constructor.
  - cbn [step]. by apply fire_registered.
Qed.

End WidgetFurther.

(* ===================================================================== *)
(** * The properties on concrete inputs *)
(* ===================================================================== *)

#[local] Existing Instance Sample.engine.
#[local] Existing Instance Sample.bundle.

(** The tooltip of a feature without properties: every placeholder. *)
Example workzone_label_empty :
  workzone_label ∅ =
    tooltip_template "Not Provided" "Not Provided" "Not Provided" "Unknown City"
      "Unknown" "Not Provided" "Not Provided" "Not Provided" "Not Provided".
Proof. reflexivity. Qed.

(** A full incident. *)
Example workzone_label_full :
  workzone_label
    (<["IncidentType" := VStr "Construction"]> (<["Severity" := VNum (Int 2)]>
     (<["Direction" := VStr "N"]> (<["City" := VStr "Raleigh"]>
     (<["CountyName" := VStr "Wake"]> (<["EndDateET" := VNum (Int 5)]> ∅)))))) =
    tooltip_template "Construction" "Medium" "Not Provided" "Raleigh" "Wake"
      "Not Provided" "North" "Not Provided" "5".
Proof. vm_compute. reflexivity. Qed.

(** A severity given as text is not the number. *)
Example severity_text_is_not_number :
  severity_label {[ "Severity" := VStr "1" ]} = "Not Provided"%string.
Proof. vm_compute. reflexivity. Qed.

(** The header lookup ignores case and surrounding blanks. *)
Example normalize_group_name :
  Text.normalize "  Work Zones " = "work zones"%string.
Proof. reflexivity. Qed.

(** Witness of C1: a frame and a visibility change before the first
    update, two updates before the tick, then the tick and a third
    update. *)
Lemma deferred_init_once_witness :
  let pre := [EvFrame; EvVisibilityChange Hidden] in
  let post := [EvUpdate Sample.no_data; EvUpdate Sample.no_data] in
  let rest := [EvFrame; EvUpdate Sample.no_data] in
  let w0 := constructor 1 [] in
  existsb is_update pre = false /\
  existsb is_frame post = false /\
  Constructed (run w0 (pre ++ post)) /\
  pending_inits (run w0 (pre ++ post)) = 1%nat /\
  init_requests (log (run w0 (pre ++ post))) = 1%nat /\
  init_requests (log (run w0 (pre ++ post ++ rest))) = 1%nat.
Proof.
  intros pre post rest w0.
  split; [reflexivity|]. split; [reflexivity|].
  exact (deferred_init_once 1 [] pre post rest eq_refl eq_refl).
Defined.

(** Witness of C2: the initialised widget, then two starts. *)
Lemma one_refresh_timer_witness :
  let w := run (constructor 1 []) [EvUpdate Sample.no_data; EvFrame] in
  (0 < 7)%Z /\
  (length (intervals w) <= 1)%nat /\
  intervals (startAutoRefresh 7 w) = [(Z.pos (next_handle w), 7%Z)] /\
  length (intervals (startAutoRefresh 7 (startAutoRefresh 5 w))) = 1%nat /\
  intervals (destroy w) = [] /\
  intervals (destroy (startAutoRefresh 7 (startAutoRefresh 5 w))) = [].
Proof.
  intros w. split; [reflexivity|].
  exact (one_refresh_timer 1 [] [EvUpdate Sample.no_data; EvFrame] 5 7 eq_refl).
Defined.

(** Witness of C3: the Work Zones group of a freshly rendered control,
    looked up by a name that differs in case and blanks. *)
Lemma wiring_is_idempotent_witness :
  let name := " work zones "%string in
  let once := makeGroupedLayerCollapsible Sample.control name in
  let twice := makeGroupedLayerCollapsible once name in
  control_group Sample.control name = Some Sample.group /\
  hdr_gliWired Sample.group = false /\
  hdr_listeners Sample.group = [] /\
  twice = once /\
  exists g' : GroupEl,
    control_group twice name = Some g' /\
    hdr_gliWired g' = true /\
    hdr_listeners g' = [("click"%string, ClickToggle); ("keydown"%string, KeydownToggle)] /\
    List.filter (fun l => String.eqb (fst l) "click") (hdr_listeners g') =
      [("click"%string, ClickToggle)] /\
    click_header g' = toggle g' /\
    grp_items g' = List.map (fun _ => "none"%string) (grp_items Sample.group) /\
    grp_items (click_header g') = List.map (fun _ => EmptyString) (grp_items Sample.group).
Proof.
  intros name once twice.
  split; [reflexivity|]. split; [reflexivity|]. split; [reflexivity|].
  exact (wiring_is_idempotent Sample.control name Sample.group eq_refl eq_refl eq_refl).
Defined.

(** Witness of C4: the initialised widget; the page is hidden, shown and
    hidden again. *)
Lemma visibility_requery_witness :
  let w := run (constructor 1 []) [EvUpdate Sample.no_data; EvFrame] in
  let vs := [Hidden; Visible; Hidden] in
  visibility_listener w = true /\
  log (run w (List.map EvVisibilityChange vs)) =
    log w ++ flat_map (visibility_requeries (this w)) vs /\
  log (run w [EvVisibilityChange Hidden]) = log w /\
  log (run w [EvVisibilityChange Hidden; EvVisibilityChange Visible]) =
    log w ++ requery_all (this w) /\
  requery_all (this w) = List.map FxRefresh (incident_layers (this w)) /\
  List.map fl_where (incident_layers (this w)) =
    List.map incident_predicate incident_types.
Proof.
  intros w vs. split; [reflexivity|].
  exact (visibility_requery 1 [] [EvUpdate Sample.no_data; EvFrame] vs eq_refl).
Defined.

(** Counterexample to C5 as stated: after the initialisation the control
    does not hold two basemaps that are off the map; only the light one
    is. *)
Lemma two_hidden_basemaps_refuted :
  ~ initial_rendering 2
      (run (constructor 1 []) [EvUpdate Sample.no_data; EvFrame]).
Proof.
  destruct (first_frame_state 1 [] Sample.no_data) as (_ & Hm & _ & _ & Hc).
  intros (c & Hc' & _ & _ & _ & _ & Hlen).
  rewrite Hc in Hc'. injection Hc' as <-.
  unfold unrendered_basemaps, on_map in Hlen. rewrite Hm in Hlen.
  vm_compute in Hlen. discriminate Hlen.
Qed.

(** Witness of C8: a code in the table and a code outside it. *)
Lemma county_tooltip_lookup_witness :
  (loose_null (feature_fips Sample.alamance) = false /\
   Number (feature_fips Sample.alamance) = Int 1 /\
   county_name (feature_fips Sample.alamance) = "Alamance"%string /\
   tooltip (countyEachFeature Sample.alamance fresh_path) = Some ("Alamance County"%string, true)) /\
  (loose_null (feature_fips Sample.elsewhere) = false /\
   Number (feature_fips Sample.elsewhere) = Int 2 /\
   county_name (feature_fips Sample.elsewhere) = "Unknown"%string /\
   tooltip (countyEachFeature Sample.elsewhere fresh_path) = Some ("Unknown County"%string, true)).
Proof.
  split; (split; [reflexivity|]); (split; [reflexivity|]).
  - exact (county_tooltip_lookup Sample.alamance 1 fresh_path eq_refl eq_refl).
  - exact (county_tooltip_lookup Sample.elsewhere 2 fresh_path eq_refl eq_refl).
Defined.

(** Witness of C9: a feature without properties, next to one with a FIPS
    code. *)
Lemma county_without_fips_witness :
  (feature_fips Sample.nameless = VNull \/ feature_fips Sample.nameless = VUndefined) /\
  countyEachFeature Sample.nameless fresh_path = fresh_path /\
  tooltip (countyEachFeature Sample.nameless fresh_path) = None /\
  listeners (countyEachFeature Sample.nameless fresh_path) = [] /\
  bool_decide (is_Some (tooltip (countyEachFeature Sample.alamance fresh_path))) = true /\
  List.map fst (listeners (countyEachFeature Sample.alamance fresh_path)) =
    ["mouseover"%string; "mouseout"%string].
Proof.
  split; [right; reflexivity|].
  exact (county_without_fips Sample.nameless Sample.alamance fresh_path (or_intror eq_refl)).
Defined.


(** A wired header under two clicks, a letter key and the Enter key: three
    toggles, so the group ends expanded. *)
Lemma header_events_parity_witness :
  let events := [HeClick; HeKeydown "a"; HeKeydown "Enter"; HeClick] in
  let final := fold_left header_event events (wire_header Sample.group) in
  hdr_gliWired Sample.group = false /\
  hdr_listeners Sample.group = [] /\
  final = setCollapsed false (wire_header Sample.group) /\
  hdr_listeners final = [("click"%string, ClickToggle); ("keydown"%string, KeydownToggle)] /\
  grp_items final =
    List.map (fun _ => if hdr_is_collapsed final then "none"%string else EmptyString)
      (grp_items Sample.group).
Proof.
  intros events final. split; [reflexivity|]. split; [reflexivity|].
  exact (header_events_parity Sample.group events eq_refl eq_refl).
Defined.

(** The Work Zones group asked for in lower case between blanks. *)
Lemma header_lookup_insensitive_witness :
  let variant := (" " ++ Text.toLowerCase "Work Zones" ++ "  ")%string in
  blank " " = true /\
  blank "  " = true /\
  Text.normalize variant = Text.normalize "Work Zones" /\
  control_group Sample.control variant = control_group Sample.control "Work Zones" /\
  makeGroupedLayerCollapsible Sample.control variant =
    makeGroupedLayerCollapsible Sample.control "Work Zones".
Proof.
  intros variant. split; [reflexivity|]. split; [reflexivity|].
  exact (header_lookup_insensitive Sample.control "Work Zones" " " "  " eq_refl eq_refl).
Defined.

(** A group the control does not render. *)
Lemma unknown_group_untouched_witness :
  ascii_only "Basemaps" = true /\
  Forall (fun n => ascii_only n = true) (rendered_names Sample.control) /\
  (control_group Sample.control "Basemaps" = None ->
   makeGroupedLayerCollapsible Sample.control "Basemaps" = Sample.control) /\
  (makeGroupedLayerCollapsible Sample.control "Basemaps" = Sample.control <->
   match control_group Sample.control "Basemaps" with
   | Some g => hdr_gliWired g = true
   | None => True
   end).
Proof.
  assert (Hnames : Forall (fun n => ascii_only n = true) (rendered_names Sample.control))
    by (repeat constructor).
  split; [reflexivity|]. split; [exact Hnames|].
  exact (unknown_group_untouched Sample.control "Basemaps" eq_refl Hnames).
Defined.

(** A county with a FIPS code and an incident, entered, clicked and left. *)
Lemma hover_is_reverted_witness :
  let types := ["mouseover"%string; "click"%string] in
  let county := countyEachFeature Sample.alamance fresh_path in
  let incident := workzoneEachFeature Sample.nameless fresh_path in
  loose_null (feature_fips Sample.alamance) = false /\
  path_events county counties_style (types ++ ["mouseout"%string]) = counties_style /\
  path_events county counties_style (types ++ ["mouseover"%string]) =
    setStyle county_hover counties_style /\
  path_events incident workzoneLinePolyStyle (types ++ ["mouseout"%string]) =
    workzoneLinePolyStyle /\
  path_events incident workzoneLinePolyStyle (types ++ ["mouseover"%string]) =
    setStyle workzone_hover workzoneLinePolyStyle.
Proof.
  intros types county incident. split; [reflexivity|].
  exact (hover_is_reverted Sample.alamance Sample.nameless types eq_refl).
Defined.

(** The initialised widget, its refresh switched off. *)
Lemma auto_refresh_off_witness :
  let w := run (constructor 1 []) [EvUpdate Sample.no_data; EvFrame] in
  (0 <= 0)%Z /\
  intervals w = [(1%Z, 21600000%Z)] /\
  intervals (startAutoRefresh 0 w) = [] /\
  this (startAutoRefresh 0 w) = this w /\
  log (startAutoRefresh 0 w) = log w /\
  intervals (startAutoRefresh 0 (startAutoRefresh 0 w)) = [].
Proof.
  intros w. split; [discriminate|]. split; [reflexivity|].
  exact (auto_refresh_off 1 [] [EvUpdate Sample.no_data; EvFrame] 0
           (fun H => match H with eq_refl => I end)).
Defined.

(** The initialised widget when its timer, handle 1, fires. *)
Lemma timer_tick_requeries_witness :
  let w := run (constructor 1 []) [EvUpdate Sample.no_data; EvFrame] in
  existsb (fun t => (fst t =? 1)%Z) (intervals w) = true /\
  log (step w (EvInterval 1)) = log w ++ requery_all (this w) /\
  length (requery_all (this w)) = 10%nat /\
  List.map fl_where (incident_layers (this w)) =
    List.map incident_predicate incident_types /\
  this (step w (EvInterval 1)) = this w /\
  intervals (step w (EvInterval 1)) = intervals w.
Proof.
  intros w. split; [reflexivity|].
  exact (timer_tick_requeries 1 [] [EvUpdate Sample.no_data; EvFrame] 1 eq_refl).
Defined.

(** The initialised widget, destroyed; then its old timer fires and the
    page is hidden and shown. *)
Lemma destroyed_widget_is_silent_witness :
  let events := [EvInterval 1; EvVisibilityChange Hidden; EvVisibilityChange Visible] in
  let w := destroy (run (constructor 1 []) [EvUpdate Sample.no_data; EvFrame]) in
  forallb is_passive events = true /\
  log (run w events) = log w /\
  this (run w events) = this w /\
  intervals (run w events) = [] /\
  visibility_listener (run w events) = false.
Proof.
  intros events w. split; [reflexivity|].
  exact (destroyed_widget_is_silent 1 [] [EvUpdate Sample.no_data; EvFrame] events eq_refl).
Defined.
